(** * Task sampling and scene rotation of the iTHOR plugin

    A shallow embedding of
    [plugins/ithor_plugin/ithor_task_samplers.py] (the two samplers
    [ObjectNavTaskSampler] and [ObjectManipTaskSampler]) and of the
    metaclass guard of [core/base_abstractions/experiment_config.py],
    together with the properties of the scene-rotation policy, the task
    budget, the environment life cycle and the class-attribute guard. *)

From Stdlib Require Import ZArith Lia.
From stdpp Require Import gmap strings list fin_maps pretty.

Local Open Scope string_scope.
Local Open Scope list_scope.
Local Open Scope Z_scope.

(** ** Python values and exceptions *)

(** The exceptions the modelled code can raise.  [SimulatorError] stands
    for whatever the simulator bindings throw; the samplers never catch
    it. *)
Inductive exn :=
| NotImplementedError (msg : string)
| ValueError
| ZeroDivisionError
| IndexError
| AttributeError
| RuntimeError (msg : string)
| SimulatorError (what : string).

(** The outcome of a call: a returned value or a raised exception. *)
Inductive result (A : Type) :=
| Ok (a : A)
| Raise (e : exn).
Arguments Ok {A} a.
Arguments Raise {A} e.

#[global] Instance exn_eq_dec : EqDecision exn.
Proof. solve_decision. Defined.

#[global] Instance result_eq_dec {A : Type} `{EqDecision A} :
  EqDecision (result A).
Proof. solve_decision. Defined.

(** [scene_period : Optional[Union[int, str]]]. *)
Inductive period :=
| PNone
| PStr (s : string)
| PInt (n : Z).

#[global] Instance period_eq_dec : EqDecision period.
Proof. solve_decision. Defined.

(** [self.scene_counter == self.scene_period]: an [int] equals another
    [int] with the same value and never equals [None] or a [str]. *)
Definition int_eq_period (z : Z) (p : period) : bool :=
  match p with
  | PInt n => z =? n
  | _ => false
  end.

(** [isinstance(self.scene_period, int)]. *)
Definition isinstance_int (p : period) : bool :=
  match p with
  | PInt _ => true
  | _ => false
  end.

(** ["{}".format(self.scene_period)]. *)
Definition format_period (p : period) : string :=
  match p with
  | PNone => "None"
  | PStr s => s
  | PInt n => pretty n
  end.

(** [float("inf") if self.max_tasks is None else self.max_tasks]. *)
Inductive extended :=
| Inf
| Fin (n : Z).

(** [s.replace(old, new)] for a non-empty [old]: every occurrence of
    [old], scanning from the left and without overlap, becomes [new].
    [skip] counts the characters of a matched occurrence still to be
    dropped. *)
Fixpoint replace_from (old new : string) (skip : nat) (s : string) : string :=
  match s with
  | EmptyString => EmptyString
  | String c s' =>
      match skip with
      | S k => replace_from old new k s'
      | O =>
          if String.prefix old s
          then new +:+ replace_from old new (Nat.pred (String.length old)) s'
          else String c (replace_from old new O s')
      end
  end.

Definition replace (old new s : string) : string := replace_from old new O s.

(** [l[i]] on a Python list: a negative index counts from the end, an
    index out of range raises [IndexError]. *)
Definition py_index {A : Type} (l : list A) (i : Z) : result A :=
  let n := Z.of_nat (length l) in
  let j := if i <? 0 then i + n else i in
  if (j <? 0) || (n <=? j) then Raise IndexError
  else match l !! Z.to_nat j with
       | Some x => Ok x
       | None => Raise IndexError
       end.

(** ** Collaborators *)

(** The process-wide pseudo-random generator of Python's [random]
    module, by the part of its contract the samplers rely on:
    [shuffle] permutes, [randint a b] stays within [a..b], and
    [sample l (len l)] is [l] in some order (a draw without
    replacement of everything). *)
Class Random := {
  rng : Type;
  seed_rng : Z → rng;
  shuffle : list Z → rng → list Z * rng;
  randint : Z → Z → rng → Z * rng;
  sample : list string → nat → rng → list string * rng;
  shuffle_perm : ∀ l g, (shuffle l g).1 ≡ₚ l;
  randint_range : ∀ a b g, a ≤ b → a ≤ (randint a b g).1 ≤ b;
  sample_perm : ∀ l g, (sample l (length l) g).1 ≡ₚ l
}.

(** The simulator bindings ([IThorEnvironment] and its arm variant
    [IThorArmEnvironment]), interface only.  A method may raise, may
    change the environment object and may consume the process-wide
    generator. *)
Class Simulator `{Random} := {
  environment : Type;
  env_args : Type;
  sensor : Type;
  action_space : Type;
  pose : Type;
  arm_pose : Type;
  (** [IThorEnvironment(make_agents_visible=False, object_open_speed=0.05,
      restrict_to_initially_reachable_points=..., **env_args)];
      [arm] tells the two classes apart. *)
  env_new : bool → env_args → rng → result environment * rng;
  env_reset : string → environment → rng → result unit * environment * rng;
  env_scene_name : environment → string;
  env_randomize_agent_location :
    environment → rng → result pose * environment * rng;
  (** the [objectType] of each entry of
      [env.last_event.metadata["objects"]] *)
  env_object_types : environment → list string;
  env_stop : environment → rng → result unit * environment * rng;
  env_randomize_arm_pose :
    environment → rng → result arm_pose * environment * rng;
  env_controller_step :
    string → environment → rng → result unit * environment * rng;
  env_set_objects_in_hand : list string → environment → environment;
  env_randomize_reachable_agent_location_given_object :
    list string → environment → rng → result pose * environment * rng;
  env_get_current_arm_coordinate :
    environment → rng → result arm_pose * environment * rng
}.

(** A simulator none of whose calls raises. *)
Class Responsive `{Simulator} : Prop := {
  env_new_ok : ∀ arm a g, ∃ e, (env_new arm a g).1 = Ok e;
  env_reset_ok : ∀ s e g, (env_reset s e g).1.1 = Ok tt;
  env_randomize_agent_location_ok :
    ∀ e g, ∃ p, (env_randomize_agent_location e g).1.1 = Ok p;
  env_randomize_arm_pose_ok :
    ∀ e g, ∃ p, (env_randomize_arm_pose e g).1.1 = Ok p;
  env_controller_step_ok : ∀ a e g, (env_controller_step a e g).1.1 = Ok tt;
  env_randomize_reachable_ok :
    ∀ l e g, ∃ p,
      (env_randomize_reachable_agent_location_given_object l e g).1.1 = Ok p;
  env_get_current_arm_coordinate_ok :
    ∀ e g, ∃ p, (env_get_current_arm_coordinate e g).1.1 = Ok p
}.

(** ** Sampler state *)

Section Samplers.
Context `{Sim : Simulator}.

(** What the logger receives. *)
Inductive warning :=
| ForceAdvanceNotManual
| NoObjectOfTypes (scene : string) (types : list string).

(** The observable effects of a call, oldest first: warnings sent to
    the logger and calls made on the simulator. *)
Inductive event :=
| Warn (w : warning)
| EnvNew (arm : bool)
| EnvReset (scene : string)
| EnvStop
| EnvRandomizeAgentLocation
| EnvRandomizeArmPose
| EnvControllerStep (action : string)
| EnvRandomizeReachable (types : list string)
| EnvGetCurrentArmCoordinate.

(** An entry of the [task_info] dictionary. *)
Inductive info :=
| InfoType (object_type : string)
| InfoPose (p : pose)
| InfoArmPose (p : arm_pose).

(** [ObjectNavTask] / [ObjectManipTask] as built by the samplers.  The
    [env] argument is a reference to the sampler's own environment
    object, which the sampler keeps; it is not copied into the task. *)
Record task := Task {
  task_arm : bool;
  task_sensors : list sensor;
  task_info : gmap string info;
  task_max_steps : Z;
  task_action_space : action_space
}.

(** The constructor's arguments; the attributes they are stored in are
    never reassigned by the sampler. *)
Record config := Config {
  cfg_scenes : list string;
  cfg_object_types : list string;
  cfg_sensors : list sensor;
  cfg_max_steps : Z;
  cfg_env_args : env_args;
  cfg_action_space : action_space;
  cfg_scene_period : period;
  cfg_max_tasks : option Z;
  cfg_seed : option Z
}.

(** The attributes a sampler object mutates. *)
Record sampler := Sampler {
  args : config;
  env : option environment;
  scene_counter : Z;
  scene_order : list Z;
  scene_id : Z;
  max_tasks : option Z;
  _last_sampled_task : option task;
  seed : option Z
}.

Definition scenes (s : sampler) : list string := cfg_scenes (args s).
Definition object_types (s : sampler) : list string := cfg_object_types (args s).
Definition scene_period (s : sampler) : period := cfg_scene_period (args s).
Definition reset_tasks (s : sampler) : option Z := cfg_max_tasks (args s).

Definition with_env (v : option environment) (s : sampler) : sampler :=
  Sampler (args s) v (scene_counter s) (scene_order s) (scene_id s)
          (max_tasks s) (_last_sampled_task s) (seed s).
Definition with_scene_counter (v : Z) (s : sampler) : sampler :=
  Sampler (args s) (env s) v (scene_order s) (scene_id s)
          (max_tasks s) (_last_sampled_task s) (seed s).
Definition with_scene_order (v : list Z) (s : sampler) : sampler :=
  Sampler (args s) (env s) (scene_counter s) v (scene_id s)
          (max_tasks s) (_last_sampled_task s) (seed s).
Definition with_scene_id (v : Z) (s : sampler) : sampler :=
  Sampler (args s) (env s) (scene_counter s) (scene_order s) v
          (max_tasks s) (_last_sampled_task s) (seed s).
Definition with_max_tasks (v : option Z) (s : sampler) : sampler :=
  Sampler (args s) (env s) (scene_counter s) (scene_order s) (scene_id s)
          v (_last_sampled_task s) (seed s).
Definition with_last_sampled_task (v : option task) (s : sampler) : sampler :=
  Sampler (args s) (env s) (scene_counter s) (scene_order s) (scene_id s)
          (max_tasks s) v (seed s).
Definition with_seed (v : option Z) (s : sampler) : sampler :=
  Sampler (args s) (env s) (scene_counter s) (scene_order s) (scene_id s)
          (max_tasks s) (_last_sampled_task s) v.

(** A sampler object together with the state of its process: the
    generator of the [random] module and what has been observed. *)
Record state := State {
  self : sampler;
  random : rng;
  log : list event
}.

(** ** A state and exception monad *)

Definition M (A : Type) : Type := state → result A * state.

Definition ret {A : Type} (a : A) : M A := λ st, (Ok a, st).
Definition raise {A : Type} (e : exn) : M A := λ st, (Raise e, st).
Definition bind {A B : Type} (m : M A) (k : A → M B) : M B :=
  λ st, match m st with
        | (Ok a, st') => k a st'
        | (Raise e, st') => (Raise e, st')
        end.

#[global] Instance M_ret : MRet M := @ret.
#[global] Instance M_bind : MBind M := λ A B k m, bind m k.

Definition get {A : Type} (f : sampler → A) : M A :=
  λ st, (Ok (f (self st)), st).
Definition set (f : sampler → sampler) : M unit :=
  λ st, (Ok tt, State (f (self st)) (random st) (log st)).
Definition emit (ev : event) : M unit :=
  λ st, (Ok tt, State (self st) (random st) (log st ++ [ev])).
Definition draw {A : Type} (f : rng → A * rng) : M A :=
  λ st, let r := f (random st) in (Ok r.1, State (self st) r.2 (log st)).
Definition lift {A : Type} (r : result A) : M A := λ st, (r, st).
Definition when (b : bool) (m : M unit) : M unit := if b then m else ret tt.

(** [get_logger().warning(...)]. *)
Definition warning_ (w : warning) : M unit := emit (Warn w).

(** A method call [self.env.m(...)]: it is recorded, runs on the
    sampler's environment object and on the generator, and keeps what it
    did to both also when it raises.  On [self.env is None] the
    attribute access fails. *)
Definition env_call {A : Type} (ev : event)
    (m : environment → rng → result A * environment * rng) : M A :=
  λ st, match env (self st) with
        | None => (Raise AttributeError, st)
        | Some e =>
            let r := m e (random st) in
            (r.1.1, State (with_env (Some r.1.2) (self st)) r.2 (log st ++ [ev]))
        end.

(** ** Methods shared by the two samplers

    [length], [last_sampled_task], [close], [sample_scene], [reset] and
    [set_seed] have the same body in [ObjectNavTaskSampler] and in
    [ObjectManipTaskSampler]. *)

Definition length_ (s : sampler) : extended :=
  match max_tasks s with
  | None => Inf
  | Some n => Fin n
  end.

Definition total_unique (s : sampler) : option Z := None.

Definition last_sampled_task (s : sampler) : option task := _last_sampled_task s.

Definition all_observation_spaces_equal (s : sampler) : bool := true.

Definition close : M unit :=
  e ← get env;
  match e with
  | Some _ => env_call EnvStop env_stop
  | None => ret tt
  end.

(** [random.shuffle(self.scene_order)]. *)
Definition shuffle_scene_order : M unit :=
  o ← get scene_order;
  o' ← draw (shuffle o);
  set (with_scene_order o').

(** [random.randint(a, b)], which raises [ValueError] on an empty
    range. *)
Definition random_randint (a b : Z) : M Z :=
  if b <? a then raise ValueError else draw (randint a b).

Definition sample_scene (force_advance_scene : bool) : M string :=
  when force_advance_scene (
    p ← get scene_period;
    when (negb (bool_decide (p = PStr "manual")))
         (warning_ ForceAdvanceNotManual);;
    sid ← get scene_id;
    n ← get (λ s, Z.of_nat (length (scenes s)));
    (if n =? 0 then raise ZeroDivisionError else ret tt);;
    set (with_scene_id ((1 + sid) `mod` n));;
    sid ← get scene_id;
    when (sid =? 0) shuffle_scene_order
  );;
  p ← get scene_period;
  (if bool_decide (p = PNone) then
     n ← get (λ s, Z.of_nat (length (scenes s)));
     r ← random_randint 0 (n - 1);
     set (with_scene_id r)
   else if bool_decide (p = PStr "manual") then
     ret tt
   else
     c ← get scene_counter;
     if int_eq_period c p then
       sid ← get scene_id;
       m ← get (λ s, Z.of_nat (length (scene_order s)));
       (if sid =? m - 1 then
          shuffle_scene_order;;
          set (with_scene_id 0)
        else
          set (with_scene_id (sid + 1)));;
       set (with_scene_counter 1)
     else if isinstance_int p then
       set (with_scene_counter (c + 1))
     else
       raise (NotImplementedError
                ("Invalid scene_period " +:+ format_period p)));;
  mt ← get max_tasks;
  match mt with
  | Some m => set (with_max_tasks (Some (m - 1)))
  | None => ret tt
  end;;
  o ← get scene_order;
  sid ← get scene_id;
  i ← lift (py_index o sid);
  l ← get scenes;
  lift (py_index l i).

Definition reset : M unit :=
  set (with_scene_counter 0);;
  n ← get (λ s, Z.of_nat (length (scenes s)));
  set (with_scene_order (seqZ 0 n));;
  shuffle_scene_order;;
  set (with_scene_id 0);;
  r ← get reset_tasks;
  set (with_max_tasks r).

(** Modelled from the spec: [utils.experiment_utils.set_seed], which is
    not among the sources; it seeds all process-wide pseudo-random
    sources consumed by sampling, so the generator's state afterwards
    depends on the seed alone. *)
Definition utils_set_seed (z : Z) : M unit :=
  λ st, (Ok tt, State (self st) (seed_rng z) (log st)).

Definition set_seed (z : option Z) : M unit :=
  set (with_seed z);;
  match z with
  | Some v => utils_set_seed v
  | None => ret tt
  end.

(** [__init__]: the attributes are created ([scene_counter],
    [scene_order], [scene_id] and [max_tasks] as [None], overwritten by
    [reset] before the constructor returns; the manipulation sampler's
    [_init_objects_pose] stays [None] for good), then [set_seed(seed)]
    and [reset()] run.  [set_deterministic_cudnn] does not touch
    anything modelled here. *)
Definition __init__ (c : config) : M unit :=
  set (λ _, Sampler c None 0 [] 0 None None None);;
  set_seed (cfg_seed c);;
  reset.

(** A sampler constructed in a process whose generator is at [g] and
    where nothing has been observed yet. *)
Definition new_sampler (c : config) (g : rng) : result unit * state :=
  __init__ c (State (Sampler c None 0 [] 0 None None None) g []).

(** The environment constructor, recorded like the other simulator
    calls. *)
Definition construct (arm : bool) (a : env_args) : M environment :=
  λ st, let r := env_new arm a (random st) in
        (r.1, State (self st) r.2 (log st ++ [EnvNew arm])).

(** An attribute read [self.env.x]. *)
Definition env_read {A : Type} (f : environment → A) : M A :=
  e ← get env;
  match e with
  | Some e => ret (f e)
  | None => raise AttributeError
  end.

(** An attribute write [self.env.x = v]. *)
Definition env_write (f : environment → environment) : M unit :=
  e ← get env;
  match e with
  | Some e => set (with_env (Some (f e)))
  | None => raise AttributeError
  end.

(** The loop
    [for ot in order: if ot in object_types_in_scene:
       task_info["object_type"] = ot; break]. *)
Fixpoint select_object_type (order : list string)
    (object_types_in_scene : gset string)
    (task_info : gmap string info) : gmap string info :=
  match order with
  | [] => task_info
  | ot :: rest =>
      if bool_decide (ot ∈ object_types_in_scene)
      then <["object_type" := InfoType ot]> task_info
      else select_object_type rest object_types_in_scene task_info
  end.

(** [self.max_tasks is not None and self.max_tasks <= 0]. *)
Definition exhausted (mt : option Z) : bool :=
  match mt with
  | Some m => m <=? 0
  | None => false
  end.

End Samplers.

(** ** [ObjectNavTaskSampler] *)

Module ObjectNavTaskSampler.
Section Methods.
Context `{Sim : Simulator}.

Definition _create_environment : M environment :=
  a ← get (λ s, cfg_env_args (args s));
  construct false a.

Definition next_task (force_advance_scene : bool) : M (option task) :=
  mt ← get max_tasks;
  if exhausted mt then ret None else
  scene ← sample_scene force_advance_scene;
  e ← get env;
  match e with
  | Some e =>
      when (negb (String.eqb (replace "_physics" "" scene)
                             (replace "_physics" "" (env_scene_name e))))
           (env_call (EnvReset scene) (env_reset scene))
  | None =>
      e' ← _create_environment;
      set (with_env (Some e'));;
      env_call (EnvReset scene) (env_reset scene)
  end;;
  pose ← env_call EnvRandomizeAgentLocation env_randomize_agent_location;
  object_types_in_scene ←
    env_read (λ e, list_to_set (env_object_types e) : gset string);
  ots ← get object_types;
  order ← draw (sample ots (length ots));
  let task_info := select_object_type order object_types_in_scene ∅ in
  when (bool_decide (size task_info = 0%nat))
       (warning_ (NoObjectOfTypes scene ots));;
  let task_info := <["start_pose" := InfoPose pose]> task_info in
  sensors ← get (λ s, cfg_sensors (args s));
  max_steps ← get (λ s, cfg_max_steps (args s));
  space ← get (λ s, cfg_action_space (args s));
  set (with_last_sampled_task
         (Some (Task false sensors task_info max_steps space)));;
  get _last_sampled_task.

End Methods.
End ObjectNavTaskSampler.

(** ** [ObjectManipTaskSampler] *)

Module ObjectManipTaskSampler.
Section Methods.
Context `{Sim : Simulator}.

Definition _create_environment : M environment :=
  a ← get (λ s, cfg_env_args (args s));
  construct true a.

Definition next_task (force_advance_scene : bool) : M (option task) :=
  mt ← get max_tasks;
  if exhausted mt then ret None else
  scene ← sample_scene force_advance_scene;
  e ← get env;
  match e with
  | Some e =>
      env_call (EnvReset scene) (env_reset scene)
  | None =>
      e' ← _create_environment;
      set (with_env (Some e'));;
      env_call (EnvReset scene) (env_reset scene)
  end;;
  _ ← env_call EnvRandomizeArmPose env_randomize_arm_pose;
  env_call (EnvControllerStep "DropMidLevelHand")
           (env_controller_step "DropMidLevelHand");;
  env_write (env_set_objects_in_hand []);;
  ots ← get object_types;
  agent_pose ←
    env_call (EnvRandomizeReachable ots)
             (env_randomize_reachable_agent_location_given_object ots);
  arm ← env_call EnvGetCurrentArmCoordinate env_get_current_arm_coordinate;
  object_types_in_scene ←
    env_read (λ e, list_to_set (env_object_types e) : gset string);
  ots ← get object_types;
  order ← draw (sample ots (length ots));
  let task_info := select_object_type order object_types_in_scene ∅ in
  when (bool_decide (size task_info = 0%nat))
       (warning_ (NoObjectOfTypes scene ots));;
  let task_info := <["start_pose" := InfoPose agent_pose]> task_info in
  let task_info := <["start_arm_pose" := InfoArmPose arm]> task_info in
  sensors ← get (λ s, cfg_sensors (args s));
  max_steps ← get (λ s, cfg_max_steps (args s));
  space ← get (λ s, cfg_action_space (args s));
  set (with_last_sampled_task
         (Some (Task true sensors task_info max_steps space)));;
  get _last_sampled_task.

End Methods.
End ObjectManipTaskSampler.

(** ** Runs of consecutive calls *)

Section Runs.
Context `{Sim : Simulator}.

(** Consecutive calls of a method, one per argument: the outcome of
    each call with the state it leaves, which the next call starts
    from (the caller survives a raised exception). *)
Fixpoint calls {A B : Type} (f : A → M B) (xs : list A) (st : state)
    : list (result B * state) :=
  match xs with
  | [] => []
  | x :: xs' => let r := f x st in r :: calls f xs' r.2
  end.

(** The state a run ends in. *)
Definition final {B : Type} (st : state) (tr : list (result B * state)) : state :=
  match last tr with
  | Some r => r.2
  | None => st
  end.

(** The permutation entry the sampler stands on, [scene_order[scene_id]]. *)
Definition current_scene_index (st : state) : result Z :=
  py_index (scene_order (self st)) (scene_id (self st)).

(** What a call added to the record of observable effects. *)
Definition effects (before after : state) : list event :=
  drop (length (log before)) (log after).

(** The two samplers' [next_task], told apart by [arm]. *)
Definition next_task_of (arm : bool) : bool → M (option task) :=
  if arm then ObjectManipTaskSampler.next_task
  else ObjectNavTaskSampler.next_task.

(** The public methods that change a sampler. *)
Inductive method :=
| NextTask (force_advance_scene : bool)
| Reset
| SetSeed (z : option Z)
| Close.

(** A method call on the sampler [arm] names; [reset], [set_seed] and
    [close] return [None]. *)
Definition invoke (arm : bool) (m : method) : M (option task) :=
  match m with
  | NextTask f => next_task_of arm f
  | Reset => reset;; mret None
  | SetSeed z => set_seed z;; mret None
  | Close => close;; mret None
  end.

(** The tasks a run returned, in order. *)
Definition returned_tasks (tr : list (result (option task) * state))
    : list task :=
  omap (λ r, match r.1 with Ok (Some t) => Some t | _ => None end) tr.

End Runs.

(** ** [FrozenClassVariables] *)

Module FrozenClassVariables.
Section Guard.
Variable value : Type.

(** The objects attribute assignment is about: a class whose metaclass
    is [FrozenClassVariables] ([ExperimentConfig] and, the metaclass
    being inherited, its subclasses), or an instance of such a class.
    Either carries its own attribute dictionary. *)
Inductive object :=
| ClassObject (__name__ : string) (__dict__ : gmap string value)
| InstanceObject (class : string) (__dict__ : gmap string value).

(** [isinstance(cls, type)]. *)
Definition isinstance_type (o : object) : bool :=
  match o with
  | ClassObject _ _ => true
  | InstanceObject _ _ => false
  end.

Definition name_of (o : object) : string :=
  match o with
  | ClassObject n _ => n
  | InstanceObject n _ => n
  end.

(** [type.__setattr__] on a class and [object.__setattr__] on an
    instance: the attribute is stored in the object's dictionary. *)
Definition store (o : object) (attr : string) (v : value) : object :=
  match o with
  | ClassObject n d => ClassObject n (<[attr := v]> d)
  | InstanceObject n d => InstanceObject n (<[attr := v]> d)
  end.

Definition newline : string := String (Ascii.ascii_of_nat 10) EmptyString.

Definition message (name : string) : string :=
  "Cannot edit class-level attributes." +:+ newline +:+
  "Changing the values of class-level attributes is disabled in ExperimentConfig classes." +:+ newline +:+
  "This is to prevent problems that can occur otherwise when using multiprocessing." +:+ newline +:+
  "If you wish to change the value of a configuration, please do so for an instance of that" +:+
  "configuration." +:+ newline +:+
  "Triggered by attempting to modify " +:+ name.

Definition __setattr__ (cls : object) (attr : string) (v : value)
    : result object :=
  if isinstance_type cls &&
     (negb (String.eqb attr "__abstractmethods__") &&
      negb (String.prefix "_abc_" attr))
  then Raise (RuntimeError (message (name_of cls)))
  else Ok (store cls attr v).

(** [obj.attr = v]: Python takes [__setattr__] from the type of [obj],
    which for a class object is its metaclass and for an instance is
    its class; [ExperimentConfig] defines no [__setattr__], so an
    instance gets [object.__setattr__]. *)
Definition setattr (o : object) (attr : string) (v : value) : result object :=
  match o with
  | ClassObject _ _ => __setattr__ o attr v
  | InstanceObject _ _ => Ok (store o attr v)
  end.

End Guard.
End FrozenClassVariables.

(** * Specification vocabulary *)

Section Vocabulary.
Context `{Sim : Simulator}.

(** [wp m Q st]: running [m] from [st] ends, by a value or by an
    exception, in an outcome and a state that satisfy [Q]. *)
Definition wp {A : Type} (m : M A) (Q : result A → state → Prop) (st : state)
    : Prop :=
  Q (m st).1 (m st).2.

(** [m] leaves the part [proj] of the state as it found it. *)
Definition preserves {A B : Type} (proj : state → B) (m : M A) : Prop :=
  ∀ st, proj (m st).2 = proj st.

(** [m] only adds to the record of effects, and what it may add
    satisfies [P]. *)
Definition appends {A : Type} (P : event → Prop) (m : M A) : Prop :=
  ∀ st, ∃ evs, log (m st).2 = log st ++ evs ∧ Forall P evs.

(** The configuration, the environment, the last task and the seed. *)
Definition outside_rotation (st : state) :=
  (args (self st), env (self st), _last_sampled_task (self st), seed (self st)).

(** The rotation state and the budget. *)
Definition rotation (st : state) :=
  (args (self st), scene_counter (self st), scene_order (self st),
   scene_id (self st), max_tasks (self st), seed (self st)).

(** [scene_period] is [None], ["manual"] or an integer. *)
Definition recognized (p : period) : bool :=
  match p with
  | PNone => true
  | PStr s => bool_decide (s = "manual")
  | PInt _ => true
  end.

Definition nscenes (st : state) : Z := Z.of_nat (length (scenes (self st))).

(** The rotation state is in range: [scene_order] is an arrangement of
    [range(len(scenes))] and [scene_id] is one of its positions. *)
Definition well_formed (st : state) : Prop :=
  scene_order (self st) ≡ₚ seqZ 0 (nscenes st) ∧
  0 ≤ scene_id (self st) < nscenes st.

(** What [next_task] does to [_last_sampled_task]: a returned task is
    recorded, and nothing else changes the record. *)
Definition tracked (before : state) (r : result (option task)) (after : state)
    : Prop :=
  match r with
  | Ok (Some t) => _last_sampled_task (self after) = Some t
  | _ => _last_sampled_task (self after) = _last_sampled_task (self before)
  end.

(** Not a reset of the environment. *)
Definition no_reset (ev : event) : Prop := ∀ s, ev ≠ EnvReset s.

(** The first entry of [order] that is among [present]. *)
Definition first_present (order present : list string) : option string :=
  head (filter (λ ot, ot ∈ present) order).

(** Where a sampler with integer period [N] stands after [p] tasks of
    a cycle over the arrangement [o]: on position [q], having spent
    [r] tasks there, with [p = q * N + r] and [1 <= r <= N] (and as
    [reset] left it when [p = 0]). *)
Definition in_cycle (N : Z) (o : list Z) (c : config) (p : Z) (st : state)
    : Prop :=
  args (self st) = c ∧
  scene_order (self st) = o ∧
  max_tasks (self st) = (λ m, m - p) <$> cfg_max_tasks c ∧
  ((p = 0 ∧ scene_counter (self st) = 0 ∧ scene_id (self st) = 0) ∨
   (∃ q r, p = q * N + r ∧ 1 ≤ r ≤ N ∧ 0 ≤ q ∧
           scene_id (self st) = q ∧ scene_counter (self st) = r)).

End Vocabulary.

(** ** A reference generator and a scripted simulator

    A linear congruential generator with an insertion shuffle, and a
    simulator that answers every call; they instantiate the two
    interfaces on concrete inputs. *)

Module Reference.

Definition lcg_next (g : Z) : Z := (1103515245 * g + 12345) `mod` 2147483648.

Definition randbelow (n : Z) (g : Z) : Z * Z :=
  let g' := lcg_next g in ((g' `div` 65536) `mod` n, g').

Fixpoint insert_shuffle {A : Type} (l : list A) (g : Z) : list A * Z :=
  match l with
  | [] => ([], g)
  | x :: l' =>
      let r := insert_shuffle l' g in
      let d := randbelow (Z.of_nat (length r.1) + 1) r.2 in
      let k := Z.to_nat d.1 in
      (take k r.1 ++ x :: drop k r.1, d.2)
  end.

Definition lcg_randint (a b : Z) (g : Z) : Z * Z :=
  let d := randbelow (b - a + 1) g in (a + d.1, d.2).

Definition lcg_sample (l : list string) (k : nat) (g : Z) : list string * Z :=
  let r := insert_shuffle l g in (take k r.1, r.2).

Lemma insert_shuffle_perm {A : Type} (l : list A) (g : Z) :
  (insert_shuffle l g).1 ≡ₚ l.
Proof.
  induction l as [|x l IH]; simpl; [done|].
  rewrite <- Permutation_middle, take_drop. by constructor.
Qed.

Lemma lcg_randint_range (a b g : Z) : a ≤ b → a ≤ (lcg_randint a b g).1 ≤ b.
Proof.
  intros Hab. unfold lcg_randint, randbelow. simpl.
  pose proof (Z.mod_pos_bound (lcg_next g `div` 65536) (b - a + 1)). lia.
Qed.

Lemma lcg_sample_perm (l : list string) (g : Z) :
  (lcg_sample l (length l) g).1 ≡ₚ l.
Proof.
  unfold lcg_sample. simpl.
  rewrite firstn_all2; [apply insert_shuffle_perm|].
  by rewrite (Permutation_length (insert_shuffle_perm l g)).
Qed.

#[export] Instance lcg : Random := {|
  rng := Z;
  seed_rng := λ z, z;
  shuffle := insert_shuffle;
  randint := lcg_randint;
  sample := lcg_sample;
  shuffle_perm := insert_shuffle_perm;
  randint_range := lcg_randint_range;
  sample_perm := lcg_sample_perm
|}.

(** The scripted simulator's environment object. *)
Record scripted := Scripted {
  sc_scene : string;
  sc_in_hand : list string;
  sc_agent : Z;
  sc_arm : Z
}.

(** Kitchens hold mugs and apples, every other scene is empty. *)
Definition scripted_objects (e : scripted) : list string :=
  if String.prefix "Kitchen" (sc_scene e) then ["Mug"; "Apple"; "Mug"] else [].

#[export] Instance scripted_simulator : Simulator := {|
  environment := scripted;
  env_args := unit;
  sensor := string;
  action_space := nat;
  pose := Z;
  arm_pose := Z;
  env_new := λ _ _ g, (Ok (Scripted "" [] 0 0), g);
  env_reset := λ s e g,
    (Ok tt, Scripted (s +:+ "_physics") (sc_in_hand e) 0 (sc_arm e), g);
  env_scene_name := sc_scene;
  env_randomize_agent_location := λ e g,
    let d := randbelow 16 g in
    (Ok d.1, Scripted (sc_scene e) (sc_in_hand e) d.1 (sc_arm e), d.2);
  env_object_types := scripted_objects;
  env_stop := λ e g, (Ok tt, e, g);
  env_randomize_arm_pose := λ e g,
    let d := randbelow 8 g in
    (Ok d.1, Scripted (sc_scene e) (sc_in_hand e) (sc_agent e) d.1, d.2);
  env_controller_step := λ a e g,
    (Ok tt, Scripted (sc_scene e) [] (sc_agent e) (sc_arm e), g);
  env_set_objects_in_hand := λ l e,
    Scripted (sc_scene e) l (sc_agent e) (sc_arm e);
  env_randomize_reachable_agent_location_given_object := λ l e g,
    let d := randbelow 16 g in
    (Ok d.1, Scripted (sc_scene e) (sc_in_hand e) d.1 (sc_arm e), d.2);
  env_get_current_arm_coordinate := λ e g, (Ok (sc_arm e), e, g)
|}.

#[export] Instance scripted_responsive : Responsive.
Proof. split; simpl; eauto. Qed.

(** A sampler configuration over the scripted simulator. *)
Definition config_of (scs ots : list string) (p : period) (mt seed : option Z)
    : config :=
  Config scs ots ["rgb"] 100 tt 4%nat p mt seed.

(** The state a freshly constructed sampler starts in, in a process
    whose generator is at [g]. *)
Definition fresh (c : config) (g : Z) : state := (new_sampler c g).2.

End Reference.

(** * Properties *)

(** ** Reasoning about monadic code *)

Section Reasoning.
Context `{Sim : Simulator}.

Lemma wp_bind {A B : Type} (m : M A) (k : A → M B) Q st :
  wp m (λ r st', match r with
                 | Ok a => wp (k a) Q st'
                 | Raise e => Q (Raise e) st'
                 end) st →
  wp (m ≫= k) Q st.
Proof.
  unfold wp, mbind, M_bind, bind.
  by destruct (m st) as [[a|e] st'].
Qed.

Lemma wp_mono {A : Type} (m : M A) (Q Q' : result A → state → Prop) st :
  wp m Q st → (∀ r st', Q r st' → Q' r st') → wp m Q' st.
Proof. unfold wp. auto. Qed.

Lemma wp_run {A : Type} (m : M A) Q st : wp m Q st → ∀ r st', m st = (r, st') → Q r st'.
Proof. unfold wp. intros HQ r st' E. by rewrite E in HQ. Qed.

Lemma wp_env_call {A : Type} ev
    (m : environment → rng → result A * environment * rng) Q st e :
  env (self st) = Some e →
  (∀ r e' g', m e (random st) = (r, e', g') →
     Q r (State (with_env (Some e') (self st)) g' (log st ++ [ev]))) →
  wp (env_call ev m) Q st.
Proof.
  intros He HQ. unfold wp, env_call. rewrite He.
  destruct (m e (random st)) as [[r e'] g'] eqn:E. simpl. by apply HQ.
Qed.

Lemma preserves_bind {A B C : Type} (proj : state → C) (m : M A) (k : A → M B) :
  preserves proj m → (∀ a, preserves proj (k a)) → preserves proj (m ≫= k).
Proof.
  intros Hm Hk st. unfold mbind, M_bind, bind.
  specialize (Hm st). destruct (m st) as [[a|e] st']; simpl in *; [|done].
  by rewrite Hk.
Qed.

Lemma preserves_when {C : Type} (proj : state → C) b m :
  preserves proj m → preserves proj (when b m).
Proof. by destruct b. Qed.

Lemma preserves_wp {A C : Type} (proj : state → C) (m : M A) st :
  preserves proj m → wp m (λ _ st', proj st' = proj st) st.
Proof. intros Hm. apply Hm. Qed.

Lemma wp_ret {A : Type} (a : A) Q st : Q (Ok a) st → wp (ret a) Q st.
Proof. done. Qed.

Lemma wp_raise {A : Type} (e : exn) (Q : result A → state → Prop) st :
  Q (Raise e) st → wp (raise e) Q st.
Proof. done. Qed.

Lemma wp_lift {A : Type} (r : result A) Q st : Q r st → wp (lift r) Q st.
Proof. done. Qed.

Lemma wp_get {A : Type} (f : sampler → A) Q st :
  Q (Ok (f (self st))) st → wp (get f) Q st.
Proof. done. Qed.

Lemma wp_set (f : sampler → sampler) Q st :
  Q (Ok tt) (State (f (self st)) (random st) (log st)) → wp (set f) Q st.
Proof. done. Qed.

Lemma wp_emit ev Q st :
  Q (Ok tt) (State (self st) (random st) (log st ++ [ev])) → wp (emit ev) Q st.
Proof. done. Qed.

Lemma wp_draw {A : Type} (f : rng → A * rng) Q st :
  Q (Ok (f (random st)).1) (State (self st) (f (random st)).2 (log st)) →
  wp (draw f) Q st.
Proof. done. Qed.

Lemma wp_utils_set_seed z Q st :
  Q (Ok tt) (State (self st) (seed_rng z) (log st)) →
  wp (utils_set_seed z) Q st.
Proof. done. Qed.

Lemma wp_construct arm a Q st :
  (∀ r g', env_new arm a (random st) = (r, g') →
     Q r (State (self st) g' (log st ++ [EnvNew arm]))) →
  wp (construct arm a) Q st.
Proof.
  intros HQ. unfold wp, construct.
  destruct (env_new arm a (random st)) as [r g'] eqn:E. simpl. by apply HQ.
Qed.

End Reasoning.

(** Projections of updated states. *)
Ltac st_simpl :=
  unfold scenes, object_types, scene_period, reset_tasks in *;
  cbn [self random log args env scene_counter scene_order scene_id max_tasks
       _last_sampled_task seed with_env with_scene_counter with_scene_order
       with_scene_id with_max_tasks with_last_sampled_task with_seed
       fst snd
       cfg_scenes cfg_object_types cfg_sensors cfg_max_steps cfg_env_args
       cfg_action_space cfg_scene_period cfg_max_tasks cfg_seed] in *.

(** One step of symbolic execution of a [wp] goal. *)
Ltac wp_step :=
  lazymatch goal with
  | |- wp (mbind _ _) _ _ => apply wp_bind
  | |- wp (mret _) _ _ => apply wp_ret
  | |- wp (ret _) _ _ => apply wp_ret
  | |- wp (raise _) _ _ => apply wp_raise
  | |- wp (lift _) _ _ => apply wp_lift
  | |- wp (get _) _ _ => apply wp_get
  | |- wp (set _) _ _ => apply wp_set
  | |- wp (emit _) _ _ => apply wp_emit
  | |- wp (warning_ _) _ _ => apply wp_emit
  | |- wp (draw _) _ _ => apply wp_draw
  | |- wp (utils_set_seed _) _ _ => apply wp_utils_set_seed
  | |- wp (construct _ _) _ _ => apply wp_construct; intros ? ? ?
  | |- wp (when ?b _) _ _ => unfold when; destruct b eqn:?
  | |- wp (if ?b then _ else _) _ _ => destruct b eqn:?
  | |- wp (match ?x with _ => _ end) _ _ => destruct x eqn:?
  | |- wp shuffle_scene_order _ _ => unfold shuffle_scene_order
  | |- wp (random_randint _ _) _ _ => unfold random_randint
  | |- wp (env_read _) _ _ => unfold env_read
  | |- wp (env_write _) _ _ => unfold env_write
  | |- wp ObjectNavTaskSampler._create_environment _ _ =>
      unfold ObjectNavTaskSampler._create_environment
  | |- wp ObjectManipTaskSampler._create_environment _ _ =>
      unfold ObjectManipTaskSampler._create_environment
  | |- wp (env_call _ _) _ _ =>
      eapply wp_env_call;
      [st_simpl; first [reflexivity | eassumption] | intros ? ? ? ?]
  | |- wp (set_seed _) _ _ => unfold set_seed
  | |- wp reset _ _ => unfold reset
  end; cbv beta iota; st_simpl.

(** Closing a goal [preserves proj m] by the structure of [m]. *)
Ltac preserves_step :=
  lazymatch goal with
  | |- preserves _ (mbind _ _) => apply preserves_bind; [|intros ?]
  | |- preserves _ (when _ _) => apply preserves_when
  | |- preserves _ (if ?b then _ else _) => destruct b
  | |- preserves _ (match ?x with _ => _ end) => destruct x
  | |- preserves _ shuffle_scene_order => unfold shuffle_scene_order
  | |- preserves _ (random_randint _ _) => unfold random_randint
  | |- preserves _ (env_read _) => unfold env_read
  | |- preserves _ (env_write _) => unfold env_write
  | |- preserves _ ObjectNavTaskSampler._create_environment =>
      unfold ObjectNavTaskSampler._create_environment
  | |- preserves _ ObjectManipTaskSampler._create_environment =>
      unfold ObjectManipTaskSampler._create_environment
  | |- preserves _ (env_call _ _) =>
      let st := fresh "st" in
      intros st; unfold env_call; destruct (env (self st)); reflexivity
  | |- preserves _ _ => intros ?; reflexivity
  end.

Section Effects.
Context `{Sim : Simulator}.

Lemma appends_bind {A B : Type} P (m : M A) (k : A → M B) :
  appends P m → (∀ a, appends P (k a)) → appends P (m ≫= k).
Proof.
  intros Hm Hk st. unfold mbind, M_bind, bind.
  destruct (Hm st) as (evs & E & HP).
  destruct (m st) as [[a|e] st']; simpl in *; [|eauto].
  destruct (Hk a st') as (evs' & E' & HP').
  exists (evs ++ evs'). rewrite E', E, assoc_L by apply _.
  split; [done|]. by apply Forall_app.
Qed.

Lemma appends_silent {A : Type} P (m : M A) :
  preserves log m → appends P m.
Proof. intros Hm st. exists []. by rewrite Hm, app_nil_r. Qed.

Lemma appends_emit P ev : P ev → appends P (emit ev).
Proof. intros HP st. exists [ev]. split; [done|]. by constructor. Qed.

Lemma appends_env_call {A : Type} P ev
    (m : environment → rng → result A * environment * rng) :
  P ev → appends P (env_call ev m).
Proof.
  intros HP st. unfold env_call. destruct (env (self st)); simpl.
  - exists [ev]. split; [done|]. by constructor.
  - exists []. by rewrite app_nil_r.
Qed.

Lemma appends_construct P arm a : P (EnvNew arm) → appends P (construct arm a).
Proof. intros HP st. exists [EnvNew arm]. split; [done|]. by constructor. Qed.

Lemma appends_when P b m : appends P m → appends P (when b m).
Proof. destruct b; [done|]. intros _. by apply appends_silent. Qed.

Lemma appends_wp {A : Type} P (m : M A) st :
  appends P m →
  wp m (λ _ st', ∃ evs, log st' = log st ++ evs ∧ Forall P evs) st.
Proof. intros Hm. apply Hm. Qed.

End Effects.

(** Closing a goal [appends P m] by the structure of [m]; what is left
    is [P] of each event [m] may emit. *)
Ltac appends_step :=
  lazymatch goal with
  | |- appends _ (mbind _ _) => apply appends_bind; [|intros ?]
  | |- appends _ (when _ _) => apply appends_when
  | |- appends _ (if ?b then _ else _) => destruct b
  | |- appends _ (match ?x with _ => _ end) => destruct x
  | |- appends _ shuffle_scene_order => unfold shuffle_scene_order
  | |- appends _ (random_randint _ _) => unfold random_randint
  | |- appends _ (env_read _) => unfold env_read
  | |- appends _ (env_write _) => unfold env_write
  | |- appends _ (emit _) => apply appends_emit
  | |- appends _ (warning_ _) => apply appends_emit
  | |- appends _ (env_call _ _) => apply appends_env_call
  | |- appends _ (construct _ _) => apply appends_construct
  | |- appends _ ObjectNavTaskSampler._create_environment =>
      unfold ObjectNavTaskSampler._create_environment
  | |- appends _ ObjectManipTaskSampler._create_environment =>
      unfold ObjectManipTaskSampler._create_environment
  | |- appends _ _ => apply appends_silent; intros ?; reflexivity
  end.

Section SampleScene.
Context `{Sim : Simulator}.

Lemma sample_scene_outside f : preserves outside_rotation (sample_scene f).
Proof. unfold sample_scene. repeat preserves_step. Qed.

(** The only thing [sample_scene] reports is the misuse of a forced
    advance. *)
Lemma sample_scene_log f :
  appends (λ ev, ev = Warn ForceAdvanceNotManual) (sample_scene f).
Proof. unfold sample_scene. repeat appends_step; done. Qed.

End SampleScene.

(** ** The scene rotation policy *)

(** Boolean tests turned into propositions. *)
Ltac bool_facts :=
  repeat match goal with
    | H : bool_decide _ = true |- _ => apply bool_decide_eq_true in H
    | H : bool_decide _ = false |- _ => apply bool_decide_eq_false in H
    | H : Is_true (bool_decide _) |- _ => apply bool_decide_unpack in H
    | H : negb _ = true |- _ => apply negb_true_iff in H
    | H : negb _ = false |- _ => apply negb_false_iff in H
    | H : (_ =? _) = true |- _ => apply Z.eqb_eq in H
    | H : (_ =? _) = false |- _ => apply Z.eqb_neq in H
    | H : (_ <? _) = true |- _ => apply Z.ltb_lt in H
    | H : (_ <? _) = false |- _ => apply Z.ltb_ge in H
    | H : (_ <=? _) = true |- _ => apply Z.leb_le in H
    | H : (_ <=? _) = false |- _ => apply Z.leb_gt in H
    end.

(** A case split on the outcome the goal is stuck on. *)
Ltac wp_case :=
  lazymatch goal with
  | |- match ?x with _ => _ end => destruct x eqn:?
  end.

Section Rotation.
Context `{Sim : Simulator}.

Lemma arrangement_lookup (o : list Z) (n k : Z) :
  o ≡ₚ seqZ 0 n → 0 ≤ k < n →
  ∃ i, o !! Z.to_nat k = Some i ∧ 0 ≤ i < n.
Proof.
  intros Ho Hk.
  assert (Hlen : length o = Z.to_nat n)
    by (by rewrite (Permutation_length Ho), length_seqZ).
  destruct (lookup_lt_is_Some_2 o (Z.to_nat k)) as [i Hi]; [lia|].
  exists i. split; [done|].
  assert (Hin : i ∈ seqZ 0 n)
    by (rewrite <- Ho; by eapply list_elem_of_lookup_2).
  apply elem_of_seqZ in Hin. lia.
Qed.

Lemma arrangement_length (o : list Z) (n : Z) :
  o ≡ₚ seqZ 0 n → 0 ≤ n → Z.of_nat (length o) = n.
Proof.
  intros Ho Hn. rewrite (Permutation_length Ho), length_seqZ. lia.
Qed.

Lemma py_index_lookup {A : Type} (l : list A) (k : Z) (x : A) :
  0 ≤ k → l !! Z.to_nat k = Some x → py_index l k = Ok x.
Proof.
  intros Hk Hx. pose proof (lookup_lt_Some _ _ _ Hx) as Hlt.
  unfold py_index.
  destruct (k <? 0) eqn:E1; [lia|].
  destruct (k <? 0) eqn:E2; [lia|].
  destruct (Z.of_nat (length l) <=? k) eqn:E3; [lia|].
  simpl. by rewrite Hx.
Qed.

Lemma sample_scene_ok f st :
  recognized (scene_period (self st)) →
  well_formed st →
  wp (sample_scene f)
     (λ r st',
        well_formed st' ∧
        max_tasks (self st') = (λ m, m - 1) <$> max_tasks (self st) ∧
        ∃ i scene,
          scene_order (self st') !! Z.to_nat (scene_id (self st')) = Some i ∧
          scenes (self st') !! Z.to_nat i = Some scene ∧
          r = Ok scene) st.
Proof.
  intros Hp [Ho Hi]. unfold sample_scene.
  apply wp_bind.
  apply wp_mono with (Q := λ r st1,
    r = Ok tt ∧ well_formed st1 ∧ args (self st1) = args (self st) ∧
    max_tasks (self st1) = max_tasks (self st)).
  { unfold well_formed, nscenes in *. repeat wp_step; try lia.
    all: split_and!; try done; try lia;
      try (by rewrite shuffle_perm); apply Z.mod_pos_bound; lia. }
  intros r st1 (-> & [Ho1 Hi1] & Ha & Hm).
  apply wp_bind, wp_get. cbv beta iota.
  apply wp_bind.
  apply wp_mono with (Q := λ r st2,
    r = Ok tt ∧ well_formed st2 ∧ args (self st2) = args (self st) ∧
    max_tasks (self st2) = max_tasks (self st)).
  { unfold well_formed, nscenes in *. st_simpl. rewrite Ha in *.
    destruct (cfg_scene_period (args (self st))) as [|s|N] eqn:Ep;
      simpl in Hp; repeat wp_step; st_simpl; rewrite ?Ha in *;
      bool_facts; try done; try lia; try (subst; congruence).
    - pose proof (randint_range 0 _ (random st1) Heqb0).
      split_and!; try done; lia.
    - split_and!; try done; [by rewrite shuffle_perm | lia].
    - rewrite (arrangement_length _ _ Ho1) in * by lia.
      split_and!; try done; lia. }
  intros r st2 (-> & [Ho2 Hi2] & Ha2 & Hm2).
  unfold well_formed, nscenes in *. st_simpl. rewrite Ha2 in *.
  destruct (arrangement_lookup _ _ _ Ho2 Hi2) as (i & Hi' & Hr).
  destruct (lookup_lt_is_Some_2 (cfg_scenes (args (self st))) (Z.to_nat i))
    as [scene Hscene]; [lia|].
  assert (E1 := py_index_lookup _ _ _ (proj1 Hi2) Hi').
  assert (E2 := py_index_lookup _ _ _ (proj1 Hr) Hscene).
  repeat wp_step; rewrite ?E1; repeat wp_step; rewrite ?Ha2, ?E2;
    st_simpl; rewrite ?Ha2, <- ?Hm2; simpl; split_and!; eauto; lia.
Qed.

(** The budget after a call of [sample_scene]: one less when the
    configured period is recognized; untouched, the call having raised
    before the decrement, when it is not. *)
Lemma sample_scene_budget f st :
  scenes (self st) ≠ [] →
  wp (sample_scene f)
     (λ r st',
        if recognized (scene_period (self st))
        then max_tasks (self st') = (λ m, m - 1) <$> max_tasks (self st)
        else r = Raise (NotImplementedError
                          ("Invalid scene_period " +:+
                           format_period (scene_period (self st)))) ∧
             max_tasks (self st') = max_tasks (self st) ∧
             log st' = log st ++ (if f then [Warn ForceAdvanceNotManual] else []))
     st.
Proof.
  intros Hne. unfold sample_scene.
  assert (Hn : Z.of_nat (length (scenes (self st))) ≠ 0)
    by (destruct (scenes (self st)); simpl; [done|lia]).
  apply wp_bind.
  apply wp_mono with (Q := λ r st1,
    r = Ok tt ∧ args (self st1) = args (self st) ∧
    max_tasks (self st1) = max_tasks (self st) ∧
    log st1 = log st ++
      (if f && negb (bool_decide (scene_period (self st) = PStr "manual"))
       then [Warn ForceAdvanceNotManual] else [])).
  { repeat wp_step; bool_facts; rewrite ?app_nil_r; try done. }
  intros r st1 (-> & Ha & Hm & Hl).
  apply wp_bind, wp_get. cbv beta iota.
  apply wp_bind.
  apply wp_mono with (Q := λ r st2,
    if recognized (scene_period (self st))
    then r = Ok tt ∧ max_tasks (self st2) = max_tasks (self st)
    else r = Raise (NotImplementedError
                      ("Invalid scene_period " +:+
                       format_period (scene_period (self st)))) ∧
         max_tasks (self st2) = max_tasks (self st) ∧ log st2 = log st1).
  { st_simpl. rewrite Ha in *.
    destruct (cfg_scene_period (args (self st))) as [|s|N] eqn:Ep;
      simpl; repeat wp_step; st_simpl; rewrite ?Ha in *;
      bool_facts; try done; try lia.
    all: case_bool_decide; simplify_eq; done. }
  intros r st2 Hst2. st_simpl.
  destruct (recognized (cfg_scene_period (args (self st)))) eqn:Hrec.
  - destruct Hst2 as (-> & Hm2).
    repeat (first [wp_step | wp_case]); st_simpl; rewrite <- ?Hm2; simpl; congruence.
  - destruct Hst2 as (-> & Hm2 & Hl2). split_and!; try done.
    rewrite Hl2, Hl. destruct f; simpl; [|done].
    case_bool_decide as E; [by rewrite E in Hrec | done].
Qed.

(** One call without a forced advance under an integer period [N]:
    after [N] tasks in a scene the sampler moves on to the next
    position, reshuffling when it was on the last one; before that it
    stays and counts. *)
Lemma sample_scene_periodic N st :
  scene_period (self st) = PInt N →
  wp (sample_scene false)
     (λ _ st',
        args (self st') = args (self st) ∧
        if scene_counter (self st) =? N then
          scene_counter (self st') = 1 ∧
          if scene_id (self st) =? Z.of_nat (length (scene_order (self st))) - 1
          then scene_id (self st') = 0 ∧
               scene_order (self st') =
                 (shuffle (scene_order (self st)) (random st)).1
          else scene_id (self st') = scene_id (self st) + 1 ∧
               scene_order (self st') = scene_order (self st)
        else
          scene_counter (self st') = scene_counter (self st) + 1 ∧
          scene_id (self st') = scene_id (self st) ∧
          scene_order (self st') = scene_order (self st))
     st.
Proof.
  intros Hp. unfold sample_scene. st_simpl.
  repeat (first [wp_step | wp_case]); st_simpl; rewrite Hp in *;
    simpl in *; bool_facts; try done.
  all: split; [done|].
  all: destruct (scene_counter (self st) =? N) eqn:?; bool_facts;
    try done; try lia.
  all: repeat case_match; bool_facts; try done; try lia.
Qed.

End Rotation.

(** ** Drawing a task *)

Section NextTask.
Context `{Sim : Simulator}.

(** Past its call of [sample_scene], [next_task] leaves the rotation
    state and the budget alone. *)
Lemma nav_next_task_rotation f st :
  exhausted (max_tasks (self st)) = false →
  rotation (ObjectNavTaskSampler.next_task f st).2 =
  rotation (sample_scene f st).2.
Proof.
  intros Hex. change (wp (ObjectNavTaskSampler.next_task f)
    (λ _ st', rotation st' = rotation (sample_scene f st).2) st).
  unfold ObjectNavTaskSampler.next_task.
  wp_step. wp_step. rewrite Hex. wp_step. unfold wp at 1.
  destruct (sample_scene f st) as [[scene|e] st1]; simpl; [|done].
  apply preserves_wp. repeat preserves_step.
Qed.

Lemma manip_next_task_rotation f st :
  exhausted (max_tasks (self st)) = false →
  rotation (ObjectManipTaskSampler.next_task f st).2 =
  rotation (sample_scene f st).2.
Proof.
  intros Hex. change (wp (ObjectManipTaskSampler.next_task f)
    (λ _ st', rotation st' = rotation (sample_scene f st).2) st).
  unfold ObjectManipTaskSampler.next_task.
  wp_step. wp_step. rewrite Hex. wp_step. unfold wp at 1.
  destruct (sample_scene f st) as [[scene|e] st1]; simpl; [|done].
  apply preserves_wp. repeat preserves_step.
Qed.

Lemma nav_next_task_tracked f st :
  wp (ObjectNavTaskSampler.next_task f) (tracked st) st.
Proof.
  unfold ObjectNavTaskSampler.next_task.
  wp_step. wp_step. wp_step; [done|]. wp_step. unfold wp at 1.
  assert (Hl : _last_sampled_task (self (sample_scene f st).2) =
               _last_sampled_task (self st))
    by (pose proof (sample_scene_outside f st) as Hout;
        unfold outside_rotation in Hout; congruence).
  destruct (sample_scene f st) as [[scene|e] st1]; simpl in *; [|done].
  repeat (first [wp_step | wp_case]); unfold tracked; st_simpl; try done.
Qed.

Lemma manip_next_task_tracked f st :
  wp (ObjectManipTaskSampler.next_task f) (tracked st) st.
Proof.
  unfold ObjectManipTaskSampler.next_task.
  wp_step. wp_step. wp_step; [done|]. wp_step. unfold wp at 1.
  assert (Hl : _last_sampled_task (self (sample_scene f st).2) =
               _last_sampled_task (self st))
    by (pose proof (sample_scene_outside f st) as Hout;
        unfold outside_rotation in Hout; congruence).
  destruct (sample_scene f st) as [[scene|e] st1]; simpl in *; [|done].
  repeat (first [wp_step | wp_case]); unfold tracked; st_simpl; try done.
Qed.

End NextTask.

(** Under a responsive simulator the call just made has returned. *)
Ltac responsive :=
  match goal with
  | E : env_new ?arm ?a ?g = (?r, _) |- _ =>
      let H := fresh in let e := fresh "e" in
      destruct (env_new_ok arm a g) as [e H];
      rewrite E in H; simpl in H; subst r
  | E : env_reset ?s ?e ?g = (?r, _, _) |- _ =>
      let H := fresh in
      pose proof (env_reset_ok s e g) as H;
      rewrite E in H; simpl in H; subst r
  | E : env_randomize_agent_location ?e ?g = (?r, _, _) |- _ =>
      let H := fresh in let p := fresh "p" in
      destruct (env_randomize_agent_location_ok e g) as [p H];
      rewrite E in H; simpl in H; subst r
  | E : env_randomize_arm_pose ?e ?g = (?r, _, _) |- _ =>
      let H := fresh in let p := fresh "p" in
      destruct (env_randomize_arm_pose_ok e g) as [p H];
      rewrite E in H; simpl in H; subst r
  | E : env_controller_step ?a ?e ?g = (?r, _, _) |- _ =>
      let H := fresh in
      pose proof (env_controller_step_ok a e g) as H;
      rewrite E in H; simpl in H; subst r
  | E : env_randomize_reachable_agent_location_given_object ?l ?e ?g
        = (?r, _, _) |- _ =>
      let H := fresh in let p := fresh "p" in
      destruct (env_randomize_reachable_ok l e g) as [p H];
      rewrite E in H; simpl in H; subst r
  | E : env_get_current_arm_coordinate ?e ?g = (?r, _, _) |- _ =>
      let H := fresh in let p := fresh "p" in
      destruct (env_get_current_arm_coordinate_ok e g) as [p H];
      rewrite E in H; simpl in H; subst r
  end.

Section NextTaskOk.
Context `{Sim : Simulator} `{!Responsive}.

Lemma nav_next_task_ok f st :
  recognized (scene_period (self st)) →
  well_formed st →
  exhausted (max_tasks (self st)) = false →
  wp (ObjectNavTaskSampler.next_task f)
     (λ r st',
        ∃ scene e' p order evs,
          (sample_scene f st).1 = Ok scene ∧
          env (self st') = Some e' ∧
          order ≡ₚ object_types (self st) ∧
          let chosen :=
            select_object_type order (list_to_set (env_object_types e')) ∅ in
          r = Ok (Some (Task false (cfg_sensors (args (self st)))
                             (<["start_pose" := InfoPose p]> chosen)
                             (cfg_max_steps (args (self st)))
                             (cfg_action_space (args (self st))))) ∧
          log st' = log st ++ evs ∧
          (Warn (NoObjectOfTypes scene (object_types (self st))) ∈ evs ↔
           size chosen = 0%nat)) st.
Proof.
  intros Hp Hwf Hex. unfold ObjectNavTaskSampler.next_task.
  wp_step. wp_step. rewrite Hex. wp_step. unfold wp at 1.
  pose proof (sample_scene_ok f st Hp Hwf) as Hok. unfold wp in Hok.
  destruct (sample_scene_log f st) as (ws & Hws & HPws).
  pose proof (sample_scene_outside f st) as Hout.
  destruct (sample_scene f st) as [[scene|e] st1]; simpl in *;
    [|by destruct Hok as (_ & _ & ? & ? & _ & _ & ?)].
  clear Hok. injection Hout as Ha He _ _.
  repeat (wp_step; try responsive).
  all: rewrite Ha in *; bool_facts.
  all: eexists scene, _, _, _, _; split_and!;
    [reflexivity | reflexivity | apply sample_perm | reflexivity
    | rewrite Hws, <- ?app_assoc; reflexivity | ].
  all: rewrite ?elem_of_app, ?list_elem_of_singleton, Forall_forall in *.
  all: split; [|by eauto 10].
  all: intros Hin; try done.
  all: exfalso; destruct_or!; try discriminate.
  all: by apply HPws in Hin.
Qed.

Lemma manip_next_task_ok f st :
  recognized (scene_period (self st)) →
  well_formed st →
  exhausted (max_tasks (self st)) = false →
  wp (ObjectManipTaskSampler.next_task f)
     (λ r st',
        ∃ scene e' p a order evs,
          (sample_scene f st).1 = Ok scene ∧
          env (self st') = Some e' ∧
          order ≡ₚ object_types (self st) ∧
          let chosen :=
            select_object_type order (list_to_set (env_object_types e')) ∅ in
          r = Ok (Some (Task true (cfg_sensors (args (self st)))
                             (<["start_arm_pose" := InfoArmPose a]>
                                (<["start_pose" := InfoPose p]> chosen))
                             (cfg_max_steps (args (self st)))
                             (cfg_action_space (args (self st))))) ∧
          log st' = log st ++ evs ∧
          (Warn (NoObjectOfTypes scene (object_types (self st))) ∈ evs ↔
           size chosen = 0%nat)) st.
Proof.
  intros Hp Hwf Hex. unfold ObjectManipTaskSampler.next_task.
  wp_step. wp_step. rewrite Hex. wp_step. unfold wp at 1.
  pose proof (sample_scene_ok f st Hp Hwf) as Hok. unfold wp in Hok.
  destruct (sample_scene_log f st) as (ws & Hws & HPws).
  pose proof (sample_scene_outside f st) as Hout.
  destruct (sample_scene f st) as [[scene|e] st1]; simpl in *;
    [|by destruct Hok as (_ & _ & ? & ? & _ & _ & ?)].
  clear Hok. injection Hout as Ha He _ _.
  repeat (wp_step; try responsive).
  all: rewrite Ha in *; bool_facts.
  all: eexists scene, _, _, _, _, _; split_and!;
    [reflexivity | reflexivity | apply sample_perm | reflexivity
    | rewrite Hws, <- ?app_assoc; reflexivity | ].
  all: rewrite ?elem_of_app, ?list_elem_of_singleton, Forall_forall in *.
  all: split; [|by eauto 10].
  all: intros Hin; try done.
  all: exfalso; destruct_or!; try discriminate.
  all: by apply HPws in Hin.
Qed.

End NextTaskOk.

Section Resets.
Context `{Sim : Simulator}.

Lemma effects_app (st st' : state) (evs : list event) :
  log st' = log st ++ evs → effects st st' = evs.
Proof. intros E. unfold effects. by rewrite E, drop_app_length. Qed.

(** The navigation sampler and an existing environment: the
    environment is reset, to the sampled scene, exactly when the two
    scene names differ once ["_physics"] is removed from both. *)
Lemma nav_next_task_resets f st e scene st1 :
  exhausted (max_tasks (self st)) = false →
  env (self st) = Some e →
  sample_scene f st = (Ok scene, st1) →
  ∀ s, EnvReset s ∈ effects st (ObjectNavTaskSampler.next_task f st).2 ↔
       s = scene ∧
       replace "_physics" "" scene ≠ replace "_physics" "" (env_scene_name e).
Proof.
  intros Hex He Hs s.
  change (wp (ObjectNavTaskSampler.next_task f) (λ _ st',
    EnvReset s ∈ effects st st' ↔
    s = scene ∧
    replace "_physics" "" scene ≠ replace "_physics" "" (env_scene_name e)) st).
  unfold ObjectNavTaskSampler.next_task.
  wp_step. wp_step. rewrite Hex. wp_step. unfold wp at 1.
  destruct (sample_scene_log f st) as (ws & Hws & HPws).
  pose proof (sample_scene_outside f st) as Hout.
  rewrite Hs in *. simpl in *. injection Hout as Ha He1 _ _.
  rewrite He in He1.
  wp_step. wp_step. rewrite He1.
  wp_step. wp_step; [wp_step; wp_case|wp_step].
  1,3: (eapply wp_mono;
        [apply (appends_wp no_reset); repeat appends_step; done|]);
       intros _ st' (evs & Hl & HP); revert Hl; st_simpl; intros Hl.
  all: bool_facts.
  all: erewrite effects_app
    by (first [rewrite Hl | st_simpl]; rewrite Hws, <- ?app_assoc; reflexivity).
  all: rewrite ?elem_of_app, ?list_elem_of_singleton.
  all: rewrite Forall_forall in HPws.
  all: try rewrite Forall_forall in HP.
  all: try apply String.eqb_neq in Heqb.
  all: try apply String.eqb_eq in Heqb.
  all: split; [intros Hin; destruct_or!|intros [-> Hne]].
  all: try (by apply HPws in Hin).
  all: try (by apply HP in Hin; destruct (Hin s)).
  all: try (by simplify_eq).
  all: eauto.
Qed.

(** The manipulation sampler resets an existing environment to the
    sampled scene on every task. *)
Lemma manip_next_task_resets f st e scene st1 :
  exhausted (max_tasks (self st)) = false →
  env (self st) = Some e →
  sample_scene f st = (Ok scene, st1) →
  ∀ s, EnvReset s ∈ effects st (ObjectManipTaskSampler.next_task f st).2 ↔
       s = scene.
Proof.
  intros Hex He Hs s.
  change (wp (ObjectManipTaskSampler.next_task f) (λ _ st',
    EnvReset s ∈ effects st st' ↔ s = scene) st).
  unfold ObjectManipTaskSampler.next_task.
  wp_step. wp_step. rewrite Hex. wp_step. unfold wp at 1.
  destruct (sample_scene_log f st) as (ws & Hws & HPws).
  pose proof (sample_scene_outside f st) as Hout.
  rewrite Hs in *. simpl in *. injection Hout as Ha He1 _ _.
  rewrite He in He1.
  wp_step. wp_step. rewrite He1.
  wp_step. wp_step. wp_case.
  1: (eapply wp_mono;
        [apply (appends_wp no_reset); repeat appends_step; done|]);
       intros _ st' (evs & Hl & HP); revert Hl; st_simpl; intros Hl.
  all: erewrite effects_app
    by (first [rewrite Hl | st_simpl]; rewrite Hws, <- ?app_assoc; reflexivity).
  all: rewrite ?elem_of_app, ?list_elem_of_singleton.
  all: rewrite Forall_forall in HPws.
  all: try rewrite Forall_forall in HP.
  all: split; [intros Hin; destruct_or!|intros ->].
  all: try (by apply HPws in Hin).
  all: try (by apply HP in Hin; destruct (Hin s)).
  all: try (by simplify_eq).
  all: eauto.
Qed.

End Resets.

(** ** What the run of a sampler does not depend on *)

Section Payload.
Context `{Sim : Simulator}.

(** The scene a sampler stands on, [scenes[scene_order[scene_id]]]. *)
Definition chosen_scene (st : state) : result string :=
  match current_scene_index st with
  | Ok i => py_index (scenes (self st)) i
  | Raise e => Raise e
  end.

(** The agent pose a call put in its task. *)
Definition agent_pose (r : result (option task)) : option info :=
  match r with
  | Ok (Some t) => task_info t !! "start_pose"
  | _ => None
  end.

(** What a call chose: the scene it left the sampler on and the agent
    pose of the task it returned. *)
Definition choice (r : result (option task) * state)
    : result string * option info :=
  (chosen_scene r.2, agent_pose r.1).

(** [sensors], [max_steps] and [action_space] are only handed on to the
    tasks.  What follows replaces them, in a configuration, in a task
    and in a sampler. *)
Variables (sensors' : list sensor) (max_steps' : Z) (space' : action_space).

Definition with_payload (c : config) : config :=
  Config (cfg_scenes c) (cfg_object_types c) sensors' max_steps'
         (cfg_env_args c) space' (cfg_scene_period c) (cfg_max_tasks c)
         (cfg_seed c).

Definition retask (t : task) : task :=
  Task (task_arm t) sensors' (task_info t) max_steps' space'.

Definition resampler (s : sampler) : sampler :=
  Sampler (with_payload (args s)) (env s) (scene_counter s) (scene_order s)
          (scene_id s) (max_tasks s) (retask <$> _last_sampled_task s)
          (seed s).

Definition restate (st : state) : state :=
  State (resampler (self st)) (random st) (log st).

Definition reoutcome (r : result (option task) * state)
    : result (option task) * state :=
  (match r.1 with
   | Ok o => Ok (retask <$> o)
   | Raise e => Raise e
   end, restate r.2).

(** [m] does not look at the replaced parameters: it does the same,
    with the same outcome, on a sampler that differs in them. *)
Definition blind {A : Type} (m : M A) : Prop :=
  ∀ st, m (restate st) = ((m st).1, restate (m st).2).

(** [m] hands the replaced parameters on to the task it returns and
    does not look at them otherwise. *)
Definition relabels (m : M (option task)) : Prop :=
  ∀ st, m (restate st) = reoutcome (m st).

Lemma blind_bind {A B : Type} (m : M A) (k : A → M B) :
  blind m → (∀ a, blind (k a)) → blind (m ≫= k).
Proof.
  intros Hm Hk st. unfold mbind, M_bind, bind. rewrite Hm.
  destruct (m st) as [[a|e] st']; simpl; [apply Hk|done].
Qed.

Lemma relabels_bind {A : Type} (m : M A) (k : A → M (option task)) :
  blind m → (∀ a, relabels (k a)) → relabels (m ≫= k).
Proof.
  intros Hm Hk st. unfold mbind, M_bind, bind. rewrite Hm.
  destruct (m st) as [[a|e] st']; simpl; [apply Hk|done].
Qed.

Lemma blind_get {A : Type} (f : sampler → A) :
  (∀ s, f (resampler s) = f s) → blind (get f).
Proof. intros Hf st. unfold get. simpl. by rewrite Hf. Qed.

Lemma blind_set (f : sampler → sampler) :
  (∀ s, f (resampler s) = resampler (f s)) → blind (set f).
Proof. intros Hf st. unfold set, restate. simpl. by rewrite Hf. Qed.

Lemma blind_ret {A : Type} (a : A) : blind (ret a).
Proof. done. Qed.

Lemma blind_mret {A : Type} (a : A) : blind (mret a).
Proof. done. Qed.

Lemma blind_raise {A : Type} (e : exn) : blind (raise e : M A).
Proof. done. Qed.

Lemma blind_lift {A : Type} (r : result A) : blind (lift r).
Proof. done. Qed.

Lemma blind_emit (ev : event) : blind (emit ev).
Proof. done. Qed.

Lemma blind_draw {A : Type} (f : rng → A * rng) : blind (draw f).
Proof. done. Qed.

Lemma blind_utils_set_seed (z : Z) : blind (utils_set_seed z).
Proof. done. Qed.

Lemma blind_construct (arm : bool) (a : env_args) : blind (construct arm a).
Proof. done. Qed.

Lemma blind_env_call {A : Type} (ev : event)
    (m : environment → rng → result A * environment * rng) :
  blind (env_call ev m).
Proof.
  intros st. unfold env_call. simpl. by destruct (env (self st)).
Qed.

Lemma blind_when (b : bool) (m : M unit) : blind m → blind (when b m).
Proof. intros Hm. by destruct b. Qed.

Ltac blind_step :=
  lazymatch goal with
  | |- blind (mbind _ _) => apply blind_bind; [|intros ?]
  | |- blind (when _ _) => apply blind_when
  | |- blind (if ?b then _ else _) => destruct b
  | |- blind (match ?x with _ => _ end) => destruct x
  | |- blind shuffle_scene_order => unfold shuffle_scene_order
  | |- blind (random_randint _ _) => unfold random_randint
  | |- blind (env_read _) => unfold env_read
  | |- blind (env_write _) => unfold env_write
  | |- blind (get _) => apply blind_get; intros ?; reflexivity
  | |- blind (set _) => apply blind_set; intros ?; reflexivity
  | |- blind (ret _) => apply blind_ret
  | |- blind (mret _) => apply blind_mret
  | |- blind (raise _) => apply blind_raise
  | |- blind (lift _) => apply blind_lift
  | |- blind (emit _) => apply blind_emit
  | |- blind (warning_ _) => apply blind_emit
  | |- blind (draw _) => apply blind_draw
  | |- blind (utils_set_seed _) => apply blind_utils_set_seed
  | |- blind (construct _ _) => apply blind_construct
  | |- blind (env_call _ _) => apply blind_env_call
  | |- blind ObjectNavTaskSampler._create_environment =>
      unfold ObjectNavTaskSampler._create_environment
  | |- blind ObjectManipTaskSampler._create_environment =>
      unfold ObjectManipTaskSampler._create_environment
  end; cbv zeta.

Lemma sample_scene_blind f : blind (sample_scene f).
Proof. unfold sample_scene. repeat blind_step. Qed.

Lemma reset_blind : blind reset.
Proof. unfold reset. repeat blind_step. Qed.

(** One step towards [relabels m]: the code up to the construction of
    the task is [blind]. *)
Ltac relabels_step :=
  first [ apply relabels_bind;
            [solve [apply sample_scene_blind | repeat blind_step]|intros ?]
        | match goal with
          | |- relabels (if ?b then _ else _) => destruct b
          end ]; cbv zeta.

Lemma next_task_relabels arm f : relabels (next_task_of arm f).
Proof.
  destruct arm; cbn [next_task_of].
  - unfold ObjectManipTaskSampler.next_task.
    relabels_step. relabels_step; [by intros st|].
    repeat relabels_step. by intros st.
  - unfold ObjectNavTaskSampler.next_task.
    relabels_step. relabels_step; [by intros st|].
    repeat relabels_step. by intros st.
Qed.

Lemma calls_relabels {A : Type} (F : A → M (option task)) (xs : list A) :
  (∀ x, relabels (F x)) →
  ∀ st, calls F xs (restate st) = reoutcome <$> calls F xs st.
Proof.
  intros HF. induction xs as [|x xs IH]; intros st; [done|].
  cbn [calls]. cbv zeta. rewrite HF, fmap_cons. f_equal. apply IH.
Qed.

Lemma choice_reoutcome r : choice (reoutcome r) = choice r.
Proof. destruct r as [[[t|]|e] st]; reflexivity. Qed.

(** Construction with a seed: the generator the sampler starts from is
    the seed's, and the replaced parameters play no part. *)
Lemma new_sampler_seeded (c : config) (g1 g2 : rng) :
  cfg_seed c ≠ None →
  (new_sampler c g2).2 = (new_sampler c g1).2 ∧
  (new_sampler (with_payload c) g2).2 = restate (new_sampler c g1).2.
Proof.
  intros Hseed. destruct (cfg_seed c) as [z|] eqn:Ez; [|done].
  unfold new_sampler, __init__, set_seed. cbn [with_payload cfg_seed].
  rewrite Ez. split; [reflexivity|].
  unfold mbind, M_bind, bind, set, utils_set_seed. cbn.
  exact (f_equal snd (reset_blind
           (State (with_seed (Some z) (Sampler c None 0 [] 0 None None None))
                  (seed_rng z) []))).
Qed.

End Payload.

(** * The claims *)

Section Claims.
Context `{Sim : Simulator}.

Lemma next_task_exhausted arm f st :
  exhausted (max_tasks (self st)) = true →
  next_task_of arm f st = (Ok None, st).
Proof.
  intros Hex. destruct arm; simpl.
  - unfold ObjectManipTaskSampler.next_task, mbind, M_bind, bind, get.
    simpl. by rewrite Hex.
  - unfold ObjectNavTaskSampler.next_task, mbind, M_bind, bind, get.
    simpl. by rewrite Hex.
Qed.

Lemma next_task_raise arm f st e st1 :
  exhausted (max_tasks (self st)) = false →
  sample_scene f st = (Raise e, st1) →
  next_task_of arm f st = (Raise e, st1).
Proof.
  intros Hex Hs. destruct arm; simpl.
  - unfold ObjectManipTaskSampler.next_task, mbind, M_bind, bind, get.
    simpl. by rewrite Hex, Hs.
  - unfold ObjectNavTaskSampler.next_task, mbind, M_bind, bind, get.
    simpl. by rewrite Hex, Hs.
Qed.

(** C9. A [next_task] call made while [max_tasks] is not [None] and
    [max_tasks <= 0] returns [None] and changes nothing: the sampler
    ([scene_id], [scene_counter], [scene_order], [max_tasks] and the
    environment it holds), the generator and the record of simulator
    calls are the ones the call started from.  Both samplers. *)
Theorem C9_exhausted_call_is_inert (f : bool) (st : state) (m : Z) :
  max_tasks (self st) = Some m →
  m ≤ 0 →
  ObjectNavTaskSampler.next_task f st = (Ok None, st) ∧
  ObjectManipTaskSampler.next_task f st = (Ok None, st).
Proof.
  intros Hm Hle.
  assert (Hex : exhausted (max_tasks (self st)) = true)
    by (rewrite Hm; simpl; lia).
  split.
  - apply (next_task_exhausted false f st Hex).
  - apply (next_task_exhausted true f st Hex).
Qed.

(** C4. With a [scene_period] that is neither [None], nor ["manual"],
    nor an integer (within [Optional[Union[int, str]]]: any other
    string), [sample_scene] raises [NotImplementedError], the
    configuration error, on every call; so does [next_task] of either
    sampler whenever the budget lets it reach [sample_scene], before
    any simulator call and without consuming budget. *)
Theorem C4_unrecognized_period_raises (f : bool) (st : state) (s : string) :
  scene_period (self st) = PStr s →
  s ≠ "manual" →
  scenes (self st) ≠ [] →
  let error := NotImplementedError ("Invalid scene_period " +:+ s) in
  (sample_scene f st).1 = Raise error ∧
  (exhausted (max_tasks (self st)) = false →
   ∀ arm,
     (next_task_of arm f st).1 = Raise error ∧
     max_tasks (self (next_task_of arm f st).2) = max_tasks (self st) ∧
     effects st (next_task_of arm f st).2 =
       if f then [Warn ForceAdvanceNotManual] else []).
Proof.
  intros Hp Hs Hne error.
  pose proof (sample_scene_budget f st Hne) as Hb. unfold wp in Hb.
  rewrite Hp in Hb. simpl in Hb.
  rewrite bool_decide_eq_false_2 in Hb by done.
  destruct Hb as (Hr & Hm & Hl). split; [done|].
  intros Hex arm.
  destruct (sample_scene f st) as [r st1] eqn:E. simpl in *. subst r.
  rewrite (next_task_raise arm f st _ st1 Hex E). simpl.
  split_and!; try done. by apply effects_app.
Qed.

(** C5, as amended.  If [scenes] is not empty: when [scene_period] is
    [None], ["manual"] or an integer, a call of [sample_scene]
    decrements a [max_tasks] that is not [None] by exactly one, with
    or without a forced advance; when [scene_period] is anything else,
    the call raises before the decrement and [max_tasks] is what it
    was. *)
Theorem C5_budget_after_sample_scene (f : bool) (st : state) :
  scenes (self st) ≠ [] →
  if recognized (scene_period (self st))
  then max_tasks (self (sample_scene f st).2) =
         (λ m, m - 1) <$> max_tasks (self st)
  else (∃ e, (sample_scene f st).1 = Raise e) ∧
       max_tasks (self (sample_scene f st).2) = max_tasks (self st).
Proof.
  intros Hne.
  pose proof (sample_scene_budget f st Hne) as Hb. unfold wp in Hb.
  destruct (recognized (scene_period (self st))); [done|].
  destruct Hb as (Hr & Hm & _). eauto.
Qed.

(** C6. On a [next_task] call that samples a scene while an
    environment exists, the navigation sampler calls [env.reset], on
    the sampled scene, if and only if the sampled scene's name and the
    environment's current scene name differ after ["_physics"] has
    been removed from both; the manipulation sampler calls
    [env.reset] on the sampled scene whatever the names. *)
Theorem C6_reset_or_reuse (f : bool) (st st1 : state) (e : environment)
    (scene : string) :
  exhausted (max_tasks (self st)) = false →
  env (self st) = Some e →
  sample_scene f st = (Ok scene, st1) →
  (∀ s, EnvReset s ∈ effects st (ObjectNavTaskSampler.next_task f st).2 ↔
        s = scene ∧
        replace "_physics" "" scene ≠
        replace "_physics" "" (env_scene_name e)) ∧
  (∀ s, EnvReset s ∈ effects st (ObjectManipTaskSampler.next_task f st).2 ↔
        s = scene).
Proof.
  intros Hex He Hs. split.
  - by apply nav_next_task_resets with st1.
  - by apply manip_next_task_resets with e st1.
Qed.

(** C8. Two samplers constructed with the same seed, not [None], and
    the same configuration go through the same states and return the
    same tasks over the same sequence of [next_task] calls, whatever
    state the generator of either process was in before.  The
    configuration that has to be the same is what sampling reads
    ([scenes], [object_types], [scene_period], [max_tasks], the seed
    and the environment arguments): [sensors], [max_steps] and the
    action space are only handed on to the tasks, and two samplers
    that differ in them still choose the same scenes and the same
    agent poses, call by call, and go through states that differ in
    these three parameters alone. *)
Theorem C8_seed_determines_run (arm : bool) (c : config) (g1 g2 : rng)
    (fs : list bool) (sensors' : list sensor) (max_steps' : Z)
    (space' : action_space) :
  cfg_seed c ≠ None →
  let c' := with_payload sensors' max_steps' space' c in
  let run := calls (next_task_of arm) fs (new_sampler c g1).2 in
  let run' := calls (next_task_of arm) fs (new_sampler c' g2).2 in
  calls (next_task_of arm) fs (new_sampler c g2).2 = run ∧
  run' = reoutcome sensors' max_steps' space' <$> run ∧
  choice <$> run' = choice <$> run.
Proof.
  intros Hseed c' run run'.
  destruct (new_sampler_seeded sensors' max_steps' space' c g1 g2 Hseed)
    as [Hsame Hpay].
  assert (Hrun : run' = reoutcome sensors' max_steps' space' <$> run).
  { unfold run', run, c'. rewrite Hpay. apply calls_relabels.
    intros f. apply next_task_relabels. }
  split_and!; [unfold run; by rewrite Hsame|done|].
  rewrite Hrun, <- list_fmap_compose. apply list_fmap_ext.
  intros i r _. apply choice_reoutcome.
Qed.

Lemma select_object_type_first_present order present (info : gmap string info) :
  select_object_type order (list_to_set present) info =
  match first_present order present with
  | Some ot => <["object_type" := InfoType ot]> info
  | None => info
  end.
Proof.
  unfold first_present.
  induction order as [|ot order IH]; simpl; [done|].
  rewrite filter_cons. case_bool_decide as Hin.
  - rewrite elem_of_list_to_set in Hin. by rewrite decide_True.
  - rewrite elem_of_list_to_set in Hin. by rewrite decide_False.
Qed.

Lemma first_present_None order present :
  first_present order present = None ↔ ∀ ot, ot ∈ order → ot ∉ present.
Proof.
  unfold first_present. rewrite head_None. split.
  - intros Hnil ot Hot Hin.
    assert (ot ∈ filter (λ ot, ot ∈ present) order)
      by (by apply list_elem_of_filter).
    rewrite Hnil in *. by eapply not_elem_of_nil.
  - intros Hno. apply elem_of_nil_inv. intros ot Hot.
    apply list_elem_of_filter in Hot as [? ?]. by eapply Hno.
Qed.

(** C7. A [next_task] call, of either sampler, on a responsive
    simulator: a task is returned, with a ["start_pose"], and its
    ["object_type"] is the first entry, in the order drawn by
    [random.sample] (an arrangement of [object_types]), that is among the
    object types the environment reports for the scene.  When no entry
    of [object_types] is among them there is no ["object_type"] key and
    the warning is logged; no exception is raised either way. *)
Theorem C7_target_object_type `{!Responsive} (arm f : bool) (st : state) :
  recognized (scene_period (self st)) →
  well_formed st →
  exhausted (max_tasks (self st)) = false →
  ∃ t st' e' scene order p,
    next_task_of arm f st = (Ok (Some t), st') ∧
    (sample_scene f st).1 = Ok scene ∧
    env (self st') = Some e' ∧
    order ≡ₚ object_types (self st) ∧
    task_info t !! "start_pose" = Some (InfoPose p) ∧
    task_info t !! "object_type" =
      InfoType <$> first_present order (env_object_types e') ∧
    (first_present order (env_object_types e') = None ↔
     ∀ ot, ot ∈ object_types (self st) → ot ∉ env_object_types e') ∧
    (Warn (NoObjectOfTypes scene (object_types (self st))) ∈ effects st st' ↔
     first_present order (env_object_types e') = None).
Proof.
  intros Hp Hwf Hex.
  assert (Hsize : ∀ order present,
    size (select_object_type order (list_to_set present) (∅ : gmap string info))
      = 0%nat ↔ first_present order present = None).
  { intros order present. rewrite select_object_type_first_present.
    destruct (first_present order present); [|by rewrite map_size_empty].
    rewrite map_size_insert_None by done. by rewrite map_size_empty. }
  destruct (next_task_of arm f st) as [r st'] eqn:E.
  destruct arm; simpl in E.
  - pose proof (manip_next_task_ok f st Hp Hwf Hex) as Hok.
    apply wp_run with (r := r) (st' := st') in Hok; [|done].
    destruct Hok as (scene & e' & p & a & order & evs
                     & Hs & He & Ho & -> & Hl & Hw).
    eexists _, st', e', scene, order, p. simpl.
    split_and!; try done; cbn [task_info].
    + rewrite lookup_insert_ne by done. apply lookup_insert_eq.
    + rewrite !lookup_insert_ne by done.
      rewrite select_object_type_first_present.
      destruct (first_present order (env_object_types e'));
        [apply lookup_insert_eq|done].
    + rewrite first_present_None. by setoid_rewrite Ho.
    + rewrite (effects_app _ _ _ Hl), Hw. apply Hsize.
  - pose proof (nav_next_task_ok f st Hp Hwf Hex) as Hok.
    apply wp_run with (r := r) (st' := st') in Hok; [|done].
    destruct Hok as (scene & e' & p & order & evs
                     & Hs & He & Ho & -> & Hl & Hw).
    eexists _, st', e', scene, order, p. simpl.
    split_and!; try done; cbn [task_info].
    + apply lookup_insert_eq.
    + rewrite !lookup_insert_ne by done.
      rewrite select_object_type_first_present.
      destruct (first_present order (env_object_types e'));
        [apply lookup_insert_eq|done].
    + rewrite first_present_None. by setoid_rewrite Ho.
    + rewrite (effects_app _ _ _ Hl), Hw. apply Hsize.
Qed.

Lemma final_cons {B : Type} (st : state) (r : result B * state) tr :
  final st (r :: tr) = final r.2 tr.
Proof. unfold final. rewrite last_cons. by destruct (last tr). Qed.

Lemma invoke_tracked arm m st : wp (invoke arm m) (tracked st) st.
Proof.
  destruct m as [f| |z|]; simpl.
  - destruct arm; [apply manip_next_task_tracked|apply nav_next_task_tracked].
  - repeat (first [wp_step | wp_case]); done.
  - repeat (first [wp_step | wp_case]); done.
  - unfold close. repeat (first [wp_step | wp_case]); done.
Qed.

Lemma run_tracked arm ms st :
  let tr := calls (invoke arm) ms st in
  _last_sampled_task (self (final st tr)) =
  match last (returned_tasks tr) with
  | Some t => Some t
  | None => _last_sampled_task (self st)
  end.
Proof.
  revert st. induction ms as [|m ms IH]; intros st; simpl; [done|].
  rewrite final_cons, IH. unfold returned_tasks. simpl.
  pose proof (invoke_tracked arm m st) as Ht. unfold wp, tracked in Ht.
  destruct (invoke arm m st) as [[[t|]|e] st']; simpl in *;
    rewrite ?last_cons; by destruct (last _).
Qed.

Lemma new_sampler_no_task c g :
  _last_sampled_task (self (new_sampler c g).2) = None.
Proof.
  change (wp (__init__ c) (λ _ st', _last_sampled_task (self st') = None)
             (State (Sampler c None 0 [] 0 None None None) g [])).
  unfold __init__. repeat (first [wp_step | wp_case]); done.
Qed.

(** C3, as amended.  At every point of a sampler's life, whatever
    methods have been called so far, [last_sampled_task] is the task
    returned by the most recent [next_task] call that returned one,
    and [None] if no call has returned one yet.  A [next_task] that
    returns [None] on an exhausted budget, a call that raises, [reset],
    [set_seed] and [close] leave it as it is. *)
Theorem C3_last_sampled_task (arm : bool) (c : config) (g : rng)
    (ms : list method) :
  let st0 := (new_sampler c g).2 in
  let tr := calls (invoke arm) ms st0 in
  last_sampled_task (self st0) = None ∧
  last_sampled_task (self (final st0 tr)) = last (returned_tasks tr).
Proof.
  intros st0 tr. unfold last_sampled_task. split.
  - apply new_sampler_no_task.
  - subst tr. rewrite run_tracked.
    destruct (last _); [done|]. apply new_sampler_no_task.
Qed.

Lemma reset_spec st :
  wp reset
     (λ r st',
        r = Ok tt ∧ args (self st') = args (self st) ∧
        max_tasks (self st') = reset_tasks (self st) ∧
        scene_counter (self st') = 0 ∧ scene_id (self st') = 0 ∧
        scene_order (self st') = (shuffle (seqZ 0 (nscenes st)) (random st)).1)
     st.
Proof. unfold reset, nscenes. repeat wp_step. done. Qed.

Lemma reset_well_formed st :
  scenes (self st) ≠ [] → well_formed (reset st).2.
Proof.
  intros Hne. pose proof (reset_spec st) as Hr. unfold wp in Hr.
  destruct Hr as (_ & Ha & _ & _ & Hi & Ho).
  unfold well_formed, nscenes in *. st_simpl. rewrite Ha, Hi, Ho.
  split; [apply shuffle_perm|].
  destruct (cfg_scenes (args (self st))); simpl; [done|lia].
Qed.

Lemma new_sampler_spec c g :
  let st0 := (new_sampler c g).2 in
  args (self st0) = c ∧ max_tasks (self st0) = cfg_max_tasks c ∧
  scene_counter (self st0) = 0 ∧ scene_id (self st0) = 0 ∧
  (cfg_scenes c ≠ [] → well_formed st0).
Proof.
  change (wp (__init__ c) (λ _ st0,
    args (self st0) = c ∧ max_tasks (self st0) = cfg_max_tasks c ∧
    scene_counter (self st0) = 0 ∧ scene_id (self st0) = 0 ∧
    (cfg_scenes c ≠ [] → well_formed st0))
    (State (Sampler c None 0 [] 0 None None None) g [])).
  unfold __init__. repeat (first [wp_step | wp_case]).
  all: split_and!; try done; intros Hne; unfold well_formed, nscenes; st_simpl.
  all: split; [apply shuffle_perm|].
  all: destruct (cfg_scenes c); simpl; [done|lia].
Qed.

(** One successful call: the task is returned and the rotation state is
    the one [sample_scene] left. *)
Lemma next_task_step `{!Responsive} arm f st :
  recognized (scene_period (self st)) →
  well_formed st →
  exhausted (max_tasks (self st)) = false →
  let r := next_task_of arm f st in
  (∃ t, r.1 = Ok (Some t)) ∧
  rotation r.2 = rotation (sample_scene f st).2 ∧
  well_formed r.2 ∧
  args (self r.2) = args (self st) ∧
  max_tasks (self r.2) = (λ m, m - 1) <$> max_tasks (self st).
Proof.
  intros Hp Hwf Hex r.
  assert (Hrot : rotation r.2 = rotation (sample_scene f st).2).
  { subst r. destruct arm; simpl;
      [by apply manip_next_task_rotation|by apply nav_next_task_rotation]. }
  assert (Hret : ∃ t, r.1 = Ok (Some t)).
  { subst r. destruct arm; simpl.
    - pose proof (manip_next_task_ok f st Hp Hwf Hex) as Hok.
      unfold wp in Hok. destruct Hok as (?&?&?&?&?&?&?&?&?&?&?&?). eauto.
    - pose proof (nav_next_task_ok f st Hp Hwf Hex) as Hok.
      unfold wp in Hok. destruct Hok as (?&?&?&?&?&?&?&?&?&?&?). eauto. }
  pose proof (sample_scene_ok f st Hp Hwf) as Hs. unfold wp in Hs.
  pose proof (sample_scene_outside f st) as Hout.
  destruct Hs as ([Ho Hi] & Hm & _).
  pose proof Hrot as Hrot'.
  unfold rotation in Hrot. unfold outside_rotation in Hout.
  injection Hrot as Ha Hc Ho' Hi' Hm' _. injection Hout as Ha' _ _ _.
  unfold well_formed, nscenes in *. st_simpl.
  rewrite Ha' in Ho, Hi.
  split_and!; try done; rewrite ?Ho', ?Hi', ?Ha, ?Ha';
    try done; try lia; congruence.
Qed.

(** A run within the budget: every call returns a task and takes one
    from the budget. *)
Lemma budget_run `{!Responsive} arm fs : ∀ st k,
  recognized (scene_period (self st)) →
  well_formed st →
  max_tasks (self st) = Some k →
  Z.of_nat (length fs) ≤ k →
  let tr := calls (next_task_of arm) fs st in
  (well_formed (final st tr) ∧ args (self (final st tr)) = args (self st) ∧
   max_tasks (self (final st tr)) = Some (k - Z.of_nat (length fs))) ∧
  ∀ i r, tr !! i = Some r →
    (∃ t, r.1 = Ok (Some t)) ∧
    args (self r.2) = args (self st) ∧
    max_tasks (self r.2) = Some (k - Z.of_nat i - 1).
Proof.
  induction fs as [|f fs IH]; intros st k Hp Hwf Hm Hk tr; simpl in *.
  { split; [|done]. unfold final. simpl.
    split_and!; try done. rewrite Hm. f_equal. lia. }
  assert (Hex : exhausted (max_tasks (self st)) = false)
    by (rewrite Hm; simpl; lia).
  destruct (next_task_step arm f st Hp Hwf Hex) as (Ht & _ & Hwf' & Ha & Hm').
  rewrite Hm in Hm'. simpl in Hm'.
  destruct (IH (next_task_of arm f st).2 (k - 1)) as ((Hw & Hfa & Hfm) & Hall).
  { unfold scene_period. by rewrite Ha. }
  { done. }
  { done. }
  { lia. }
  subst tr. rewrite final_cons. split.
  - split_and!; [done|congruence|]. rewrite Hfm. f_equal. lia.
  - intros [|i] r Hr; simpl in Hr.
    + injection Hr as <-. split_and!; [done..|]. rewrite Hm'. f_equal. lia.
    + destruct (Hall i r Hr) as (? & ? & Hmi). split_and!; [done|congruence|].
      rewrite Hmi. f_equal. lia.
Qed.

Lemma length_calls {A B : Type} (f : A → M B) xs st :
  length (calls f xs st) = length xs.
Proof. revert st. induction xs; intros st; simpl; [done|]. by rewrite IHxs. Qed.

Lemma calls_app {A B : Type} (f : A → M B) xs ys st :
  calls f (xs ++ ys) st =
  calls f xs st ++ calls f ys (final st (calls f xs st)).
Proof.
  revert st. induction xs as [|x xs IH]; intros st; simpl; [done|].
  by rewrite IH, final_cons.
Qed.

(** C2. A sampler of either kind configured with [max_tasks = K],
    [K] a positive integer (and scenes to draw from, a recognized
    period, a responsive simulator): the first [K] calls of [next_task]
    each return a task, [length] going from [K] down by one per call to
    [0]; the call after those returns [None]; [reset()] brings
    [length] back to [K], wherever in the run it is called. *)
Theorem C2_task_budget `{!Responsive} (arm : bool) (c : config) (g : rng)
    (K : Z) (fs : list bool) (f : bool) :
  cfg_max_tasks c = Some K →
  0 < K →
  cfg_scenes c ≠ [] →
  recognized (cfg_scene_period c) →
  Z.of_nat (length fs) = K →
  let st0 := (new_sampler c g).2 in
  let tr := calls (next_task_of arm) (fs ++ [f]) st0 in
  length_ (self st0) = Fin K ∧
  (∀ i, (i < length fs)%nat →
     ∃ t st', tr !! i = Some (Ok (Some t), st') ∧
              length_ (self st') = Fin (K - Z.of_nat i - 1)) ∧
  (∃ st', tr !! length fs = Some (Ok None, st') ∧
          length_ (self st') = Fin 0) ∧
  length_ (self (reset st0).2) = Fin K ∧
  (∀ r, r ∈ tr → length_ (self (reset r.2).2) = Fin K).
Proof.
  intros HK Hpos Hne Hp Hlen st0 tr.
  destruct (new_sampler_spec c g) as (Ha & Hm & _ & _ & Hwf).
  fold st0 in Ha, Hm, Hwf. specialize (Hwf Hne). rewrite HK in Hm.
  assert (Hp0 : recognized (scene_period (self st0)))
    by (unfold scene_period; by rewrite Ha).
  destruct (budget_run arm fs st0 K Hp0 Hwf Hm) as ((Hwf' & Ha' & Hm') & Hall);
    [lia|].
  assert (Hreset : ∀ st, args (self st) = c → length_ (self (reset st).2) = Fin K).
  { intros st Hst. pose proof (reset_spec st) as Hr. unfold wp in Hr.
    destruct Hr as (_ & _ & Hmt & _). unfold length_, reset_tasks in *.
    by rewrite Hmt, Hst, HK. }
  assert (Hlast : next_task_of arm f (final st0 (calls (next_task_of arm) fs st0))
                  = (Ok None, final st0 (calls (next_task_of arm) fs st0))).
  { apply next_task_exhausted. rewrite Hm'. simpl. lia. }
  subst tr. rewrite calls_app. simpl. rewrite Hlast.
  split_and!.
  - unfold length_. by rewrite Hm.
  - intros i Hi.
    destruct (lookup_lt_is_Some_2 (calls (next_task_of arm) fs st0) i)
      as [[r st'] Hr]; [by rewrite length_calls|].
    destruct (Hall i _ Hr) as ([t Ht] & _ & Hmi). simpl in *. subst r.
    exists t, st'. rewrite lookup_app_l by (by rewrite length_calls).
    split; [done|]. unfold length_. by rewrite Hmi.
  - eexists. rewrite lookup_app_r by (by rewrite length_calls).
    rewrite length_calls, Nat.sub_diag. simpl. split; [done|].
    unfold length_. rewrite Hm'. f_equal. lia.
  - by apply Hreset.
  - intros r Hr. apply Hreset.
    rewrite elem_of_app, list_elem_of_singleton in Hr.
    destruct Hr as [Hr| ->]; simpl; [|congruence].
    apply list_elem_of_lookup in Hr as [i Hi].
    destruct (Hall i r Hi) as (_ & Hai & _). congruence.
Qed.

Section Cycle.
Context `{!Responsive}.
Variables (N : Z) (o : list Z) (c : config).
Let len : Z := Z.of_nat (length (cfg_scenes c)).
Hypothesis HN : cfg_scene_period c = PInt N.
Hypothesis Hpos : 0 < N.
Hypothesis Ho : o ≡ₚ seqZ 0 len.
Hypothesis Hbudget : ∀ m, cfg_max_tasks c = Some m → N * len ≤ m.

Lemma cycle_step arm p st :
  in_cycle N o c p st →
  0 ≤ p < N * len →
  let r := next_task_of arm false st in
  (∃ t, r.1 = Ok (Some t)) ∧
  in_cycle N o c (p + 1) r.2 ∧
  scene_id (self r.2) = p `div` N.
Proof.
  intros (Ha & Hord & Hm & Hpos') Hp r.
  assert (Hlen : 0 < len) by nia.
  assert (Hwf : well_formed st).
  { unfold well_formed, nscenes, scenes. rewrite Ha, Hord. split; [done|].
    destruct Hpos' as [(_ & _ & ->)|(q & k & -> & ? & ? & -> & _)];
      [lia|]. fold len. nia. }
  assert (Hrec : recognized (scene_period (self st)))
    by (unfold scene_period; by rewrite Ha, HN).
  assert (Hex : exhausted (max_tasks (self st)) = false).
  { rewrite Hm. destruct (cfg_max_tasks c) as [m|] eqn:Em; simpl; [|done].
    specialize (Hbudget m eq_refl). lia. }
  destruct (next_task_step arm false st Hrec Hwf Hex)
    as (Ht & Hrot & _ & Ha' & Hm').
  split; [done|].
  pose proof (sample_scene_periodic N st) as Hper. unfold wp in Hper.
  destruct Hper as (_ & Hper); [unfold scene_period; by rewrite Ha|].
  unfold rotation in Hrot. injection Hrot as _ Hc' Ho' Hi' _ _.
  fold r in Ha', Hm', Hc', Ho', Hi'.
  rewrite <- Hc', <- Ho', <- Hi' in Hper.
  rewrite Hord, (arrangement_length _ _ Ho) in Hper by lia.
  assert (Hmax : max_tasks (self r.2) = (λ m, m - (p + 1)) <$> cfg_max_tasks c).
  { rewrite Hm', Hm. destruct (cfg_max_tasks c); simpl; f_equal. lia. }
  unfold in_cycle. rewrite Ha', Ha, Hmax.
  destruct Hpos' as [(-> & Hc0 & Hi0)|(q & k & -> & Hk & Hq & Hi0 & Hc0)];
    rewrite Hc0, Hi0, ?Hord in Hper.
  - destruct (0 =? N) eqn:E0; [lia|]. destruct Hper as (Hc1 & Hi1 & ->).
    split_and!; try done.
    right. exists 0, 1. split_and!; lia.
  - destruct (k =? N) eqn:Ek.
    + apply Z.eqb_eq in Ek. subst k. destruct Hper as (Hc1 & Hper).
      destruct (q =? len - 1) eqn:Eq; [nia|]. destruct Hper as (Hi1 & ->).
      split_and!; try done.
      * right. exists (q + 1), 1. split_and!; lia.
      * rewrite Hi1. apply Z.div_unique with 0; lia.
    + apply Z.eqb_neq in Ek. destruct Hper as (Hc1 & Hi1 & ->).
      split_and!; try done.
      * right. exists q, (k + 1). split_and!; lia.
      * rewrite Hi1. apply Z.div_unique with k; lia.
Qed.

Lemma cycle_run arm n : ∀ p st,
  in_cycle N o c p st →
  0 ≤ p →
  p + Z.of_nat n ≤ N * len →
  let tr := calls (next_task_of arm) (replicate n false) st in
  in_cycle N o c (p + Z.of_nat n) (final st tr) ∧
  ∀ k r, tr !! k = Some r →
    (∃ t, r.1 = Ok (Some t)) ∧
    scene_order (self r.2) = o ∧
    scene_id (self r.2) = (p + Z.of_nat k) `div` N.
Proof.
  induction n as [|n IH]; intros p st Hin Hp Hn tr; simpl in *.
  { unfold final. simpl. by rewrite Z.add_0_r. }
  destruct (cycle_step arm p st Hin) as (Ht & Hin' & Hid); [lia|].
  destruct (IH (p + 1) (next_task_of arm false st).2 Hin') as (Hfin & Hall);
    [lia..|].
  subst tr. rewrite final_cons. split.
  - by replace (p + Z.of_nat (S n)) with (p + 1 + Z.of_nat n) by lia.
  - intros [|k] r Hr; simpl in Hr.
    + injection Hr as <-. rewrite Z.add_0_r.
      split_and!; [done| |done]. by destruct Hin' as (_ & ? & _).
    + destruct (Hall k r Hr) as (? & ? & Hk). split_and!; [done..|].
      rewrite Hk. f_equal. lia.
Qed.

(** The call after a full cycle reshuffles and starts over. *)
Lemma cycle_wrap arm st :
  0 < len →
  in_cycle N o c (N * len) st →
  exhausted (max_tasks (self st)) = false →
  let r := next_task_of arm false st in
  scene_id (self r.2) = 0 ∧
  scene_order (self r.2) = (shuffle o (random st)).1.
Proof.
  intros Hlen (Ha & Hord & Hm & Hpos') Hex r.
  pose proof (sample_scene_periodic N st) as Hper. unfold wp in Hper.
  destruct Hper as (_ & Hper); [unfold scene_period; by rewrite Ha|].
  assert (Hrot : rotation r.2 = rotation (sample_scene false st).2).
  { subst r. destruct arm; simpl;
      [by apply manip_next_task_rotation|by apply nav_next_task_rotation]. }
  unfold rotation in Hrot. injection Hrot as _ Hc' Ho' Hi' _ _.
  rewrite <- Hc', <- Ho', <- Hi' in Hper.
  rewrite Hord, (arrangement_length _ _ Ho) in Hper by lia.
  destruct Hpos' as [(? & _)|(q & k & Hqk & Hk & Hq & Hi0 & Hc0)]; [nia|].
  assert (Hd : (len - q) * N = k) by lia.
  assert (0 < len - q) by nia.
  assert (len - q < 2) by nia.
  assert (q = len - 1) as -> by lia.
  assert (k = N) as -> by lia.
  rewrite Hc0, Hi0, !Z.eqb_refl in Hper. by destruct Hper as (_ & ? & ?).
Qed.

End Cycle.

(** Lists in which every entry is repeated [n] times. *)

Lemma lookup_bind_replicate {A : Type} (l : list A) (n k : nat) :
  (0 < n)%nat → (l ≫= replicate n) !! k = l !! (k / n)%nat.
Proof.
  intros Hn. revert k. induction l as [|x l IH]; intros k; simpl; [done|].
  destruct (decide (k < n)%nat) as [Hk|Hk].
  - rewrite lookup_app_l by (by rewrite length_replicate).
    rewrite Nat.div_small by done. simpl. by apply lookup_replicate_2.
  - rewrite lookup_app_r by (rewrite length_replicate; lia).
    rewrite length_replicate, IH.
    replace k with ((k - n) + 1 * n)%nat at 2 by lia.
    rewrite Nat.div_add by lia. by rewrite Nat.add_1_r.
Qed.

Lemma length_filter_replicate {A : Type} (P : A → Prop)
    `{!∀ x, Decision (P x)} (x : A) (n : nat) :
  length (filter P (replicate n x)) = if decide (P x) then n else 0%nat.
Proof.
  induction n as [|n IH]; simpl; [by destruct (decide (P x))|].
  rewrite filter_cons. destruct (decide (P x)); simpl; by rewrite ?IH.
Qed.

Lemma length_filter_bind_replicate {A : Type} (P : A → Prop)
    `{!∀ x, Decision (P x)} (l : list A) (n : nat) :
  length (filter P (l ≫= replicate n)) = (n * length (filter P l))%nat.
Proof.
  induction l as [|x l IH]; [simpl; lia|].
  rewrite bind_cons, filter_app, length_app, IH, length_filter_replicate,
    filter_cons.
  destruct (decide (P x)); simpl; lia.
Qed.

Lemma length_filter_fmap {A B : Type} (f : A → B) (P : B → Prop)
    `{!∀ y, Decision (P y)} (l : list A) :
  length (filter P (f <$> l)) = length (filter (λ x, P (f x)) l).
Proof.
  induction l as [|x l IH]; [done|].
  rewrite fmap_cons, !filter_cons.
  destruct (decide (P (f x))); simpl; by rewrite IH.
Qed.

Lemma length_filter_once {A : Type} (P : A → Prop) `{!∀ x, Decision (P x)}
    (l : list A) (i : A) :
  (∀ x, P x ↔ x = i) → NoDup l → i ∈ l → length (filter P l) = 1%nat.
Proof.
  intros HP Hnd Hin. induction Hnd as [|x l Hx Hnd IH]; [by apply elem_of_nil in Hin|].
  rewrite filter_cons. destruct (decide (P x)) as [Hpx|Hpx].
  - apply HP in Hpx. subst x. simpl. f_equal.
    apply length_zero_iff_nil, elem_of_nil_inv. intros y Hy.
    apply list_elem_of_filter in Hy as [Hy1 Hy2]. apply HP in Hy1. by subst y.
  - apply IH. apply elem_of_cons in Hin as [->|Hin]; [|done].
    exfalso. by apply Hpx, HP.
Qed.

(** C1. Integer [scene_period = N > 0], at least two scenes, a budget
    that is unbounded or covers [N * len(scenes)] tasks, a responsive
    simulator.  Starting from [reset()], over [N * len(scenes)]
    consecutive [next_task()] calls without forced advance: every call
    returns a task; call number [k] (from 0) stands on position
    [k // N] of the arrangement [o] that [reset] shuffled, which is
    still in place, so the scenes visited are the entries of [o], each
    for [N] consecutive tasks, and every scene index is visited exactly
    [N] times; the next call that draws a scene is the one that
    reshuffles, and goes back to position 0. *)
Theorem C1_scene_period_cycle `{!Responsive} (arm : bool) (st : state) (N : Z) :
  scene_period (self st) = PInt N →
  0 < N →
  (2 ≤ length (scenes (self st)))%nat →
  (∀ m, reset_tasks (self st) = Some m → N * nscenes st ≤ m) →
  let st0 := (reset st).2 in
  let o := scene_order (self st0) in
  let n := Z.to_nat (N * nscenes st) in
  let tr := calls (next_task_of arm) (replicate n false) st0 in
  o ≡ₚ seqZ 0 (nscenes st) ∧
  (∀ k, (k < n)%nat →
     ∃ t st', tr !! k = Some (Ok (Some t), st') ∧
              scene_order (self st') = o ∧
              scene_id (self st') = Z.of_nat k `div` N) ∧
  (λ r, current_scene_index r.2) <$> tr =
    Ok <$> (o ≫= replicate (Z.to_nat N)) ∧
  (∀ i, 0 ≤ i < nscenes st →
     length (filter (λ r, current_scene_index r.2 = Ok i) tr) = Z.to_nat N) ∧
  (exhausted (max_tasks (self (final st0 tr))) = false →
   let r := next_task_of arm false (final st0 tr) in
   scene_id (self r.2) = 0 ∧
   scene_order (self r.2) = (shuffle o (random (final st0 tr))).1).
Proof.
  intros HN Hpos Hlen Hbudget st0 o n tr.
  pose proof (reset_spec st) as Hr. unfold wp in Hr. fold st0 in Hr.
  destruct Hr as (_ & Ha & Hm & Hc & Hi & Hord).
  assert (Ho : o ≡ₚ seqZ 0 (nscenes st))
    by (subst o; rewrite Hord; apply shuffle_perm).
  assert (Hl : 2 ≤ nscenes st) by (unfold nscenes; lia).
  assert (Hcyc : in_cycle N o (args (self st)) 0 st0).
  { unfold in_cycle. split_and!; [done..| |by left].
    rewrite Hm. unfold reset_tasks.
    destruct (cfg_max_tasks _); simpl; f_equal; lia. }
  assert (Hn : Z.of_nat n = N * nscenes st) by (subst n; nia).
  destruct (cycle_run N o (args (self st)) HN Hpos Ho Hbudget arm n 0 st0 Hcyc)
    as (Hfin & Hall); [lia|rewrite Hn; unfold nscenes, scenes; lia|].
  fold tr in Hfin, Hall.
  assert (Hk : ∀ k, (k < n)%nat →
            ∃ t st' x, tr !! k = Some (Ok (Some t), st') ∧
              scene_order (self st') = o ∧
              scene_id (self st') = Z.of_nat k `div` N ∧
              o !! (k / Z.to_nat N)%nat = Some x ∧
              current_scene_index st' = Ok x).
  { intros k Hk.
    destruct (lookup_lt_is_Some_2 tr k) as [[r st'] Hr];
      [subst tr; by rewrite length_calls, length_replicate|].
    destruct (Hall k _ Hr) as ([t Ht] & Hso & Hsi). simpl in *. subst r.
    rewrite Z.add_0_l in Hsi.
    assert (Hq : 0 ≤ Z.of_nat k `div` N < nscenes st).
    { split; [apply Z.div_pos; lia|]. apply Z.div_lt_upper_bound; lia. }
    destruct (arrangement_lookup _ _ _ Ho Hq) as (x & Hx & _).
    exists t, st', x. split_and!; try done.
    - rewrite <- Hx. f_equal.
      rewrite <- (Z2Nat.id N) at 2 by lia.
      by rewrite <- Nat2Z.inj_div, Nat2Z.id.
    - unfold current_scene_index. rewrite Hso, Hsi.
      apply py_index_lookup; [lia|done]. }
  assert (Hvisited : (λ r, current_scene_index r.2) <$> tr =
                     Ok <$> (o ≫= replicate (Z.to_nat N))).
  { apply list_eq. intros k. rewrite !list_lookup_fmap.
    rewrite lookup_bind_replicate by lia.
    destruct (decide (k < n)%nat) as [Hlt|Hge].
    - destruct (Hk k Hlt) as (t & st' & x & -> & _ & _ & -> & Hx). simpl.
      by rewrite Hx.
    - rewrite (lookup_ge_None_2 tr)
        by (subst tr; rewrite length_calls, length_replicate; lia).
      rewrite (lookup_ge_None_2 o); [done|].
      rewrite (Permutation_length Ho), length_seqZ.
      apply Nat.div_le_lower_bound; [lia|]. nia. }
  split_and!.
  - done.
  - intros k Hlt. destruct (Hk k Hlt) as (t & st' & x & ? & ? & ? & _). eauto.
  - done.
  - intros i Hi'.
    transitivity (length (filter (λ v, v = Ok i)
                            ((λ r, current_scene_index r.2) <$> tr))).
    { by rewrite length_filter_fmap. }
    rewrite Hvisited, length_filter_fmap.
    rewrite length_filter_bind_replicate.
    rewrite (length_filter_once _ o i); [lia| | |].
    + intros x. simpl. split; [by intros [= ->]|by intros ->].
    + rewrite Ho. apply NoDup_seqZ.
    + rewrite Ho. apply elem_of_seqZ. lia.
  - intros Hex.
    replace (0 + Z.of_nat n) with (N * Z.of_nat (length (cfg_scenes (args (self st)))))
      in Hfin by (rewrite Hn; unfold nscenes, scenes; lia).
    apply (cycle_wrap N o (args (self st)) HN Hpos Ho arm (final st0 tr));
      [unfold nscenes, scenes in Hl; lia|done|done].
Qed.

End Claims.

Section GuardProperties.
Import FrozenClassVariables.
Context {value : Type}.

(** C10. Assigning an attribute on the class object of
    [ExperimentConfig] or of a subclass raises [RuntimeError] exactly
    when the attribute's name is not ["__abstractmethods__"] and does
    not start with ["_abc_"]; for those names the assignment goes
    through and the attribute is stored.  Assigning an attribute of an
    instance always goes through. *)
Theorem C10_class_attributes_frozen (name attr : string)
    (d : gmap string value) (v : value) :
  (setattr value (ClassObject value name d) attr v
     = Raise (RuntimeError (message name)) ↔
   attr ≠ "__abstractmethods__" ∧ ¬ String.prefix "_abc_" attr) ∧
  (setattr value (ClassObject value name d) attr v
     = Ok (ClassObject value name (<[attr := v]> d)) ↔
   attr = "__abstractmethods__" ∨ String.prefix "_abc_" attr) ∧
  setattr value (InstanceObject value name d) attr v
    = Ok (InstanceObject value name (<[attr := v]> d)).
Proof.
  unfold setattr, __setattr__. simpl.
  destruct (String.eqb attr "__abstractmethods__") eqn:He;
    destruct (String.prefix "_abc_" attr) eqn:Hpre; simpl;
    [apply String.eqb_eq in He..|apply String.eqb_neq in He|
     apply String.eqb_neq in He].
  all: split_and!; try done.
  all: split; try done.
  all: try (intros [? ?]; done).
  all: try (intros [?|?]; done).
  all: try (by left).
  all: try (by right).
  intros _. split; [done|]. by intros [].
Qed.

End GuardProperties.

(** * The claims on concrete samplers *)

Module Scenarios.
Import Reference.

(** Three scenes, two tasks per scene, a budget of seven tasks. *)
Definition kitchens : config :=
  config_of ["Kitchen1"; "Bath2"; "Kitchen3"] ["Mug"; "Towel"]
            (PInt 2) (Some 7) (Some 42).

(** Two scenes, two tasks per scene, no budget. *)
Definition unbounded : config :=
  config_of ["Kitchen1"; "Bath2"] ["Mug"] (PInt 2) None (Some 1).

(** A period that is not recognized. *)
Definition weekly : config :=
  config_of ["Kitchen1"; "Bath2"] ["Mug"] (PStr "weekly") (Some 3) None.

(** Budgets of two tasks, one task and none. *)
Definition two_tasks : config :=
  config_of ["Kitchen1"; "Bath2"] ["Mug"] (PInt 1) (Some 2) None.
Definition one_task : config :=
  config_of ["Kitchen1"; "Bath2"] ["Mug"] (PInt 1) (Some 1) None.
Definition no_task : config :=
  config_of ["Kitchen1"; "Bath2"] ["Mug"] PNone (Some 0) None.

(** The scene names of the specification's example are the same once
    the suffix is removed. *)
Example strip_physics_suffix :
  replace "_physics" "" "Kitchen1_physics" = replace "_physics" "" "Kitchen1".
Proof. reflexivity. Qed.

Example class_attribute_blocked :
  FrozenClassVariables.setattr Z
    (FrozenClassVariables.ClassObject Z "MyConfig" ∅) "lr" 3 =
  Raise (RuntimeError (FrozenClassVariables.message "MyConfig")).
Proof. reflexivity. Qed.

Example abc_attribute_stored :
  FrozenClassVariables.setattr Z
    (FrozenClassVariables.ClassObject Z "MyConfig" ∅) "_abc_cache" 3 =
  Ok (FrozenClassVariables.ClassObject Z "MyConfig" {["_abc_cache" := 3]}).
Proof. reflexivity. Qed.

Example instance_attribute_stored :
  FrozenClassVariables.setattr Z
    (FrozenClassVariables.InstanceObject Z "MyConfig" ∅) "lr" 3 =
  Ok (FrozenClassVariables.InstanceObject Z "MyConfig" {["lr" := 3]}).
Proof. reflexivity. Qed.

Lemma pair_eta {A B : Type} (p : A * B) (a : A) : p.1 = a → p = (a, p.2).
Proof. intros <-. by destruct p. Qed.

Lemma C1_witness :
  let st := fresh unbounded 0 in
  (λ r, current_scene_index r.2) <$>
    calls (next_task_of false)
          (replicate (Z.to_nat (2 * nscenes st)) false) (reset st).2 =
  Ok <$> (scene_order (self (reset st).2) ≫= replicate (Z.to_nat 2)).
Proof.
  refine (proj1 (proj2 (proj2
    (C1_scene_period_cycle false (fresh unbounded 0) 2 _ _ _ _)))).
  - reflexivity.
  - lia.
  - vm_compute. lia.
  - intros m Hm. vm_compute in Hm. discriminate Hm.
Defined.

Lemma C2_witness :
  let st0 := fresh two_tasks 0 in
  let tr := calls (next_task_of false) ([false; true] ++ [false]) st0 in
  length_ (self st0) = Fin 2 ∧
  (∃ st', tr !! 2%nat = Some (Ok None, st') ∧ length_ (self st') = Fin 0) ∧
  length_ (self (reset st0).2) = Fin 2.
Proof.
  destruct (C2_task_budget false two_tasks 0 2 [false; true] false)
    as (H1 & _ & H3 & H4 & _).
  - reflexivity.
  - lia.
  - vm_compute. discriminate.
  - vm_compute. exact I.
  - reflexivity.
  - exact (conj H1 (conj H3 H4)).
Defined.

Lemma C3_counterexample :
  let st := fresh one_task 0 in
  let tr := calls (next_task_of false) [false; false] st in
  ∃ t, tr.*1 = [Ok (Some t); Ok None] ∧
       last_sampled_task (self (final st tr)) = Some t.
Proof.
  exists (Task false (cfg_sensors one_task)
            (<["start_pose" := @InfoPose lcg scripted_simulator 4]>
               (<["object_type" := InfoType "Mug"]> ∅))
            (cfg_max_steps one_task) (cfg_action_space one_task)).
  split; reflexivity.
Qed.

Lemma C4_witness :
  let st := fresh weekly 0 in
  (sample_scene true st).1 =
    Raise (NotImplementedError "Invalid scene_period weekly") ∧
  (next_task_of false true st).1 =
    Raise (NotImplementedError "Invalid scene_period weekly").
Proof.
  destruct (C4_unrecognized_period_raises true (fresh weekly 0) "weekly")
    as [H1 H2].
  - reflexivity.
  - discriminate.
  - vm_compute. discriminate.
  - split; [exact H1|]. exact (proj1 (H2 eq_refl false)).
Defined.

Lemma C5_counterexample :
  let st := fresh weekly 0 in
  max_tasks (self st) = Some 3 ∧
  (sample_scene true st).1 =
    Raise (NotImplementedError "Invalid scene_period weekly") ∧
  max_tasks (self (sample_scene true st).2) = Some 3.
Proof. vm_compute. repeat split. Qed.

Lemma C5_witness :
  let st := fresh kitchens 0 in
  max_tasks (self st) = Some 7 ∧
  max_tasks (self (sample_scene true st).2) = Some 6.
Proof.
  split; [reflexivity|].
  refine (C5_budget_after_sample_scene true (fresh kitchens 0) _).
  vm_compute. discriminate.
Defined.

Lemma C6_witness :
  let st := (ObjectNavTaskSampler.next_task false (fresh kitchens 0)).2 in
  (∀ s, EnvReset s ∈ effects st (ObjectNavTaskSampler.next_task false st).2 ↔
        s = "Kitchen3" ∧
        replace "_physics" "" "Kitchen3" ≠
        replace "_physics" "" "Kitchen3_physics") ∧
  (∀ s, EnvReset s ∈ effects st (ObjectManipTaskSampler.next_task false st).2 ↔
        s = "Kitchen3").
Proof.
  refine (C6_reset_or_reuse false
            (ObjectNavTaskSampler.next_task false (fresh kitchens 0)).2
            (sample_scene false
               (ObjectNavTaskSampler.next_task false (fresh kitchens 0)).2).2
            (Scripted "Kitchen3_physics" [] 5 0) "Kitchen3" _ _ _).
  - vm_compute. reflexivity.
  - vm_compute. reflexivity.
  - apply pair_eta. vm_compute. reflexivity.
Defined.

Lemma C7_witness :
  let st := fresh kitchens 0 in
  ∃ t st' e' scene order p,
    next_task_of false false st = (Ok (Some t), st') ∧
    (sample_scene false st).1 = Ok scene ∧
    env (self st') = Some e' ∧
    order ≡ₚ object_types (self st) ∧
    task_info t !! "start_pose" = Some (InfoPose p) ∧
    task_info t !! "object_type" =
      InfoType <$> first_present order (env_object_types e') ∧
    (first_present order (env_object_types e') = None ↔
     ∀ ot, ot ∈ object_types (self st) → ot ∉ env_object_types e') ∧
    (Warn (NoObjectOfTypes scene (object_types (self st))) ∈ effects st st' ↔
     first_present order (env_object_types e') = None).
Proof.
  refine (C7_target_object_type false false (fresh kitchens 0) _ _ _).
  - vm_compute. exact I.
  - apply new_sampler_spec. vm_compute. discriminate.
  - vm_compute. reflexivity.
Defined.

Lemma C8_witness :
  let fs := [false; true; false] in
  let run := calls (next_task_of false) fs (new_sampler kitchens 0).2 in
  let run' :=
    calls (next_task_of false) fs
          (new_sampler (with_payload ["depth"] 50 7%nat kitchens) 99).2 in
  calls (next_task_of false) fs (new_sampler kitchens 99).2 = run ∧
  run' = reoutcome ["depth"] 50 7%nat <$> run ∧
  choice <$> run' = choice <$> run.
Proof.
  refine (C8_seed_determines_run false kitchens 0 99 [false; true; false]
            ["depth"] 50 7%nat _).
  vm_compute. discriminate.
Defined.

Lemma C9_witness :
  let st := fresh no_task 0 in
  ObjectNavTaskSampler.next_task true st = (Ok None, st) ∧
  ObjectManipTaskSampler.next_task true st = (Ok None, st).
Proof.
  refine (C9_exhausted_call_is_inert true (fresh no_task 0) 0 _ _).
  - vm_compute. reflexivity.
  - lia.
Defined.

End Scenarios.

(** * Further properties of the samplers *)

Section MoreRotation.
Context `{Sim : Simulator}.

(** What [sample_scene] reports: the misuse of a forced advance, when
    there is one, and nothing else; also when the call raises. *)
Lemma sample_scene_warns f st :
  log (sample_scene f st).2 =
  log st ++
    (if f && negb (bool_decide (scene_period (self st) = PStr "manual"))
     then [Warn ForceAdvanceNotManual] else []).
Proof.
  change (wp (sample_scene f) (λ _ st', log st' = log st ++
    (if f && negb (bool_decide (scene_period (self st) = PStr "manual"))
     then [Warn ForceAdvanceNotManual] else [])) st).
  unfold sample_scene. apply wp_bind.
  apply wp_mono with (Q := λ _ st1, log st1 = log st ++
    (if f && negb (bool_decide (scene_period (self st) = PStr "manual"))
     then [Warn ForceAdvanceNotManual] else [])).
  { repeat wp_step; rewrite ?app_nil_r; done. }
  intros [[]|e] st1 Hl; [|done].
  eapply wp_mono; [apply (preserves_wp log); repeat preserves_step|].
  intros r2 st2 Hl2. simpl in Hl2. congruence.
Qed.

(** The forced advance and the ["manual"] policy: the position moves by
    one, cyclically, exactly on a forced call, which reshuffles when it
    wraps to position 0; the counter is never touched. *)
Lemma sample_scene_manual f st :
  scene_period (self st) = PStr "manual" →
  scenes (self st) ≠ [] →
  let st' := (sample_scene f st).2 in
  let next := (1 + scene_id (self st)) `mod` nscenes st in
  scene_counter (self st') = scene_counter (self st) ∧
  scene_id (self st') = (if f then next else scene_id (self st)) ∧
  scene_order (self st') =
    (if f && (next =? 0) then (shuffle (scene_order (self st)) (random st)).1
     else scene_order (self st)) ∧
  random st' =
    (if f && (next =? 0) then (shuffle (scene_order (self st)) (random st)).2
     else random st).
Proof.
  intros Hp Hne.
  assert (Hn : Z.of_nat (length (scenes (self st))) ≠ 0)
    by (destruct (scenes (self st)); simpl; [done|lia]).
  change (wp (sample_scene f) (λ _ st',
    scene_counter (self st') = scene_counter (self st) ∧
    scene_id (self st') =
      (if f then (1 + scene_id (self st)) `mod` nscenes st
       else scene_id (self st)) ∧
    scene_order (self st') =
      (if f && ((1 + scene_id (self st)) `mod` nscenes st =? 0)
       then (shuffle (scene_order (self st)) (random st)).1
       else scene_order (self st)) ∧
    random st' =
      (if f && ((1 + scene_id (self st)) `mod` nscenes st =? 0)
       then (shuffle (scene_order (self st)) (random st)).2
       else random st)) st).
  unfold sample_scene, nscenes in *. st_simpl.
  repeat (first [wp_step | wp_case]); st_simpl; rewrite ?Hp in *;
    simpl in *; bool_facts; try done; try lia.
  all: repeat match goal with H : (_ `mod` _ =? _) = _ |- _ => rewrite H end.
  all: try done.
Qed.

(** [sample_scene] keeps the rotation state in range whatever the
    period and whether it returns or raises. *)
Lemma sample_scene_well_formed f st :
  well_formed st → well_formed (sample_scene f st).2.
Proof.
  intros [Ho Hi].
  change (wp (sample_scene f) (λ _ st', well_formed st') st).
  unfold sample_scene.
  apply wp_bind.
  apply wp_mono with (Q := λ _ st1,
    well_formed st1 ∧ args (self st1) = args (self st)).
  { unfold well_formed, nscenes in *. repeat wp_step; try lia.
    all: split_and!; try done; try lia;
      try (by rewrite shuffle_perm); apply Z.mod_pos_bound; lia. }
  intros [[]|e] st1 ([Ho1 Hi1] & Ha); [|done].
  apply wp_bind, wp_get. cbv beta iota.
  apply wp_bind.
  apply wp_mono with (Q := λ _ st2,
    well_formed st2 ∧ args (self st2) = args (self st)).
  { unfold well_formed, nscenes in *. st_simpl. rewrite Ha in *.
    destruct (cfg_scene_period (args (self st))) as [|s|N] eqn:Ep;
      repeat wp_step; st_simpl; rewrite ?Ha in *;
      bool_facts; try done; try lia.
    - pose proof (randint_range 0 _ (random st1) Heqb0).
      split_and!; try done; lia.
    - split_and!; try done; [by rewrite shuffle_perm | lia].
    - rewrite (arrangement_length _ _ Ho1) in * by lia.
      split_and!; try done; lia. }
  intros [[]|e] st2 ([Ho2 Hi2] & Ha2); [|done].
  unfold well_formed, nscenes in *. st_simpl.
  repeat (first [wp_step | wp_case]); st_simpl; done.
Qed.

(** The budget after [sample_scene]: what it was, or one less. *)
Lemma sample_scene_budget_step f st :
  max_tasks (self (sample_scene f st).2) = max_tasks (self st) ∨
  max_tasks (self (sample_scene f st).2) = (λ m, m - 1) <$> max_tasks (self st).
Proof.
  change (wp (sample_scene f) (λ _ st',
    max_tasks (self st') = max_tasks (self st) ∨
    max_tasks (self st') = (λ m, m - 1) <$> max_tasks (self st)) st).
  unfold sample_scene. apply wp_bind.
  eapply wp_mono;
    [apply (preserves_wp (λ st, max_tasks (self st))); repeat preserves_step|].
  intros [[]|e] st1 Hm1; simpl in Hm1; [|by left].
  apply wp_bind, wp_get. cbv beta iota. apply wp_bind.
  eapply wp_mono;
    [apply (preserves_wp (λ st, max_tasks (self st))); repeat preserves_step|].
  intros [[]|e] st2 Hm2; simpl in Hm2; [|left; congruence].
  repeat (first [wp_step | wp_case]); st_simpl;
    try first [left; congruence | right; simpl; congruence].
  all: right; rewrite <- Hm1, <- Hm2; done.
Qed.

(** The counter under an integer period [N]: untouched, or back to 1
    from [N], or one more from anything else. *)
Lemma sample_scene_counter f N st :
  scene_period (self st) = PInt N →
  let c := scene_counter (self st) in
  let c' := scene_counter (self (sample_scene f st).2) in
  c' = c ∨ (c = N ∧ c' = 1) ∨ (c ≠ N ∧ c' = c + 1).
Proof.
  intros Hp.
  change (wp (sample_scene f) (λ _ st',
    scene_counter (self st') = scene_counter (self st) ∨
    (scene_counter (self st) = N ∧ scene_counter (self st') = 1) ∨
    (scene_counter (self st) ≠ N ∧
     scene_counter (self st') = scene_counter (self st) + 1)) st).
  unfold sample_scene. apply wp_bind.
  eapply wp_mono;
    [apply (preserves_wp (λ st, (scene_counter (self st), args (self st))));
     repeat preserves_step|].
  intros [[]|e] st1 Hc1; simpl in Hc1; injection Hc1 as Hc1 Ha1;
    [|by left].
  st_simpl. rewrite <- Hc1.
  repeat (first [wp_step | wp_case]); st_simpl; rewrite ?Ha1, ?Hp in *;
    simpl in *; bool_facts; try done; try (by left); try (by right; left);
    try (by right; right).
Qed.

End MoreRotation.

Section MoreRuns.
Context `{Sim : Simulator}.

(** A property of states that every call preserves holds all along a
    run, with what it implies for each call's outcome. *)
Lemma calls_invariant {A B : Type} (I : state → Prop)
    (R : result B * state → Prop) (f : A → M B) xs :
  (∀ x st, I st → I (f x st).2 ∧ R (f x st)) →
  ∀ st, I st →
    I (final st (calls f xs st)) ∧ Forall R (calls f xs st).
Proof.
  intros Hstep. induction xs as [|x xs IH]; intros st Hst; simpl.
  { split; [done|constructor]. }
  destruct (Hstep x st Hst) as [HI HR]. destruct (IH _ HI) as [HF HA].
  rewrite final_cons. split; [done|]. by constructor.
Qed.

Lemma tuple4_eq {A B C D : Type} (a a' : A) (b b' : B) (c c' : C) (d d' : D) :
  (a, b, c, d) = (a', b', c', d') → a = a' ∧ b = b' ∧ c = c' ∧ d = d'.
Proof. by intros [= -> -> -> ->]. Qed.

Lemma then_return {A B : Type} (m : M A) (b : B) st :
  (∃ a, (m st).1 = Ok a) → (m;; mret b) st = (Ok b, (m st).2).
Proof.
  unfold mbind, M_bind, bind, mret, M_ret, ret.
  destruct (m st) as [[a|e] st']; simpl; [done|]. by intros [a [=]].
Qed.

(** What a method call can do to the configuration, the rotation state
    and the budget: nothing, what its [sample_scene] did, or what
    [reset] does. *)
Lemma invoke_cases arm m st :
  let st' := (invoke arm m st).2 in
  let rot := λ st, (scene_counter (self st), scene_order (self st),
                    scene_id (self st), max_tasks (self st)) in
  args (self st') = args (self st) ∧
  (rot st' = rot st ∨
   (∃ f, exhausted (max_tasks (self st)) = false ∧
         rot st' = rot (sample_scene f st).2) ∨
   rot st' = rot (reset st).2).
Proof.
  destruct m as [f| |z|]; cbn [invoke].
  - destruct (exhausted (max_tasks (self st))) eqn:Hex.
    + rewrite (next_task_exhausted arm f st Hex). simpl. auto.
    + assert (Hrot : rotation (next_task_of arm f st).2 =
                     rotation (sample_scene f st).2)
        by (destruct arm; simpl;
            [by apply manip_next_task_rotation
            |by apply nav_next_task_rotation]).
      pose proof (sample_scene_outside f st) as Hout.
      unfold rotation in Hrot. unfold outside_rotation in Hout.
      injection Hrot as Ha Hc Ho Hi Hm _. injection Hout as Ha' _ _ _.
      split; [congruence|]. right. left. exists f. split; [done|].
      congruence.
  - pose proof (reset_spec st) as Hr. unfold wp in Hr.
    destruct Hr as (Hok & Ha & _).
    rewrite then_return by eauto. simpl. auto.
  - assert (Hp : preserves (λ st, (args (self st), scene_counter (self st),
                   scene_order (self st), scene_id (self st),
                   max_tasks (self st))) (set_seed z;; mret None : M (option task)))
      by (unfold set_seed; repeat preserves_step).
    specialize (Hp st). simpl in Hp. injection Hp as -> -> -> -> ->. auto.
  - assert (Hp : preserves (λ st, (args (self st), scene_counter (self st),
                   scene_order (self st), scene_id (self st),
                   max_tasks (self st))) (close;; mret None : M (option task)))
      by (unfold close; repeat preserves_step).
    specialize (Hp st). simpl in Hp. injection Hp as -> -> -> -> ->. auto.
Qed.

Lemma invoke_well_formed arm m st :
  well_formed st → well_formed (invoke arm m st).2.
Proof.
  intros Hwf. destruct (invoke_cases arm m st) as (Ha & [Hr|[(f & _ & Hr)|Hr]]).
  - apply tuple4_eq in Hr as (_ & Ho & Hi & _). destruct Hwf as [Hwo Hwi].
    unfold well_formed, nscenes, scenes in *. by rewrite Ha, Ho, Hi.
  - apply tuple4_eq in Hr as (_ & Ho & Hi & _).
    pose proof (sample_scene_well_formed f st Hwf) as [Hwo Hwi].
    pose proof (sample_scene_outside f st) as Hout.
    injection Hout as Ha' _ _ _.
    unfold well_formed, nscenes, scenes in *.
    rewrite Ha, Ho, Hi. by rewrite Ha' in Hwo, Hwi.
  - apply tuple4_eq in Hr as (_ & Ho & Hi & _).
    assert (Hne : scenes (self st) ≠ []).
    { destruct Hwf as [_ Hwi]. unfold nscenes in Hwi.
      destruct (scenes (self st)); simpl in *; [lia|done]. }
    pose proof (reset_well_formed st Hne) as [Hwo Hwi].
    pose proof (reset_spec st) as Hrs. unfold wp in Hrs.
    destruct Hrs as (_ & Ha' & _).
    unfold well_formed, nscenes, scenes in *.
    rewrite Ha, Ho, Hi. by rewrite Ha' in Hwo, Hwi.
Qed.

(** X1. The rotation state stays in range for the whole life of a
    sampler built over a non-empty scene list: after any sequence of
    [next_task] (forced or not), [reset], [set_seed] and [close] calls,
    whatever the period and whether or not simulator calls raise,
    [scene_order] is an arrangement of [range(len(scenes))] and
    [0 <= scene_id < len(scenes)]. *)
Theorem X1_rotation_stays_in_range (arm : bool) (c : config) (g : rng)
    (ms : list method) :
  cfg_scenes c ≠ [] →
  let st0 := (new_sampler c g).2 in
  well_formed st0 ∧
  Forall (λ r, well_formed r.2) (calls (invoke arm) ms st0).
Proof.
  intros Hne st0.
  assert (Hwf : well_formed st0) by (by apply new_sampler_spec).
  split; [done|].
  apply (calls_invariant well_formed (λ r, well_formed r.2)); [|done].
  intros m st Hst. split; by apply invoke_well_formed.
Qed.

(** X2. The budget never goes negative through the public methods: a
    sampler configured with [max_tasks = K >= 0] has
    [0 <= max_tasks <= K] after any sequence of [next_task], [reset],
    [set_seed] and [close] calls, also when calls raise. *)
Theorem X2_budget_never_negative (arm : bool) (c : config) (g : rng)
    (K : Z) (ms : list method) :
  cfg_max_tasks c = Some K →
  0 ≤ K →
  Forall (λ r, ∃ k, max_tasks (self r.2) = Some k ∧ 0 ≤ k ≤ K)
         (calls (invoke arm) ms (new_sampler c g).2).
Proof.
  intros HK Hpos.
  destruct (new_sampler_spec c g) as (Ha & Hm & _).
  apply (calls_invariant
    (λ st, args (self st) = c ∧
           ∃ k, max_tasks (self st) = Some k ∧ 0 ≤ k ≤ K)
    (λ r, ∃ k, max_tasks (self r.2) = Some k ∧ 0 ≤ k ≤ K)).
  - intros m st (Hc & k & Hk & Hrange).
    assert (Hst : args (self (invoke arm m st).2) = c ∧
              ∃ k, max_tasks (self (invoke arm m st).2) = Some k ∧ 0 ≤ k ≤ K);
      [|by destruct Hst].
    destruct (invoke_cases arm m st) as (Ha' & [Hr|[(f & Hex & Hr)|Hr]]).
    + apply tuple4_eq in Hr as (_ & _ & _ & Hm'). split; [congruence|].
      exists k. by rewrite Hm'.
    + apply tuple4_eq in Hr as (_ & _ & _ & Hm'). split; [congruence|].
      rewrite Hk in Hex. simpl in Hex. apply Z.leb_gt in Hex.
      destruct (sample_scene_budget_step f st) as [Hs|Hs];
        rewrite Hm', Hs, Hk; simpl; eexists; split; try done; lia.
    + apply tuple4_eq in Hr as (_ & _ & _ & Hm'). split; [congruence|].
      pose proof (reset_spec st) as Hrs. unfold wp in Hrs.
      destruct Hrs as (_ & _ & Hmr & _).
      exists K. rewrite Hm', Hmr. unfold reset_tasks. rewrite Hc, HK.
      split; [done|lia].
  - split; [done|]. exists K. rewrite Hm, HK. split; [done|lia].
Qed.

(** X3. Under a positive integer period [N] the counter stays within
    [0..N]: after any sequence of [next_task] (forced or not), [reset],
    [set_seed] and [close] calls, [0 <= scene_counter <= scene_period]. *)
Theorem X3_counter_within_period (arm : bool) (c : config) (g : rng)
    (N : Z) (ms : list method) :
  cfg_scene_period c = PInt N →
  1 ≤ N →
  Forall (λ r, 0 ≤ scene_counter (self r.2) ≤ N)
         (calls (invoke arm) ms (new_sampler c g).2).
Proof.
  intros HN Hpos.
  destruct (new_sampler_spec c g) as (Ha & _ & Hc0 & _).
  apply (calls_invariant
    (λ st, args (self st) = c ∧ 0 ≤ scene_counter (self st) ≤ N)
    (λ r, 0 ≤ scene_counter (self r.2) ≤ N)).
  - intros m st (Hc & Hrange).
    assert (Hst : args (self (invoke arm m st).2) = c ∧
              0 ≤ scene_counter (self (invoke arm m st).2) ≤ N);
      [|by destruct Hst].
    destruct (invoke_cases arm m st) as (Ha' & [Hr|[(f & Hex & Hr)|Hr]]).
    + apply tuple4_eq in Hr as (Hc' & _ & _ & _). split; [congruence|]. by rewrite Hc'.
    + apply tuple4_eq in Hr as (Hc' & _ & _ & _). split; [congruence|]. rewrite Hc'.
      pose proof (sample_scene_counter f N st) as Hs. simpl in Hs.
      destruct Hs as [Hs|[[_ Hs]|[Hne Hs]]];
        [unfold scene_period; by rewrite Hc| | |]; rewrite Hs; lia.
    + apply tuple4_eq in Hr as (Hc' & _ & _ & _). split; [congruence|]. rewrite Hc'.
      pose proof (reset_spec st) as Hrs. unfold wp in Hrs.
      destruct Hrs as (_ & _ & _ & Hcr & _). rewrite Hcr. lia.
  - split; [done|]. rewrite Hc0. lia.
Qed.

Lemma next_task_rotation_of arm f st :
  exhausted (max_tasks (self st)) = false →
  rotation (next_task_of arm f st).2 = rotation (sample_scene f st).2.
Proof.
  intros Hex. destruct arm; simpl;
    [by apply manip_next_task_rotation|by apply nav_next_task_rotation].
Qed.

Lemma next_task_budget_step arm f st :
  max_tasks (self (next_task_of arm f st).2) = max_tasks (self st) ∨
  max_tasks (self (next_task_of arm f st).2) =
    (λ m, m - 1) <$> max_tasks (self st).
Proof.
  destruct (exhausted (max_tasks (self st))) eqn:Hex.
  - rewrite (next_task_exhausted arm f st Hex). by left.
  - pose proof (next_task_rotation_of arm f st Hex) as Hrot.
    unfold rotation in Hrot. injection Hrot as _ _ _ _ Hm _.
    rewrite Hm. apply sample_scene_budget_step.
Qed.

Lemma next_task_not_none arm f st :
  exhausted (max_tasks (self st)) = false →
  (next_task_of arm f st).1 ≠ Ok None.
Proof.
  intros Hex.
  change (wp (next_task_of arm f) (λ r _, r ≠ Ok None) st).
  destruct arm; simpl.
  - unfold ObjectManipTaskSampler.next_task.
    wp_step. wp_step. rewrite Hex. wp_step. unfold wp at 1.
    destruct (sample_scene f st) as [[scene|e] st1]; simpl; [|done].
    repeat (first [wp_step | wp_case]); done.
  - unfold ObjectNavTaskSampler.next_task.
    wp_step. wp_step. rewrite Hex. wp_step. unfold wp at 1.
    destruct (sample_scene f st) as [[scene|e] st1]; simpl; [|done].
    repeat (first [wp_step | wp_case]); done.
Qed.

(** X4. [next_task] returns [None] exactly when the budget is spent
    ([max_tasks] not [None] and [<= 0]): with budget left, or without
    a budget, a call ends in a task or in an exception, whatever the
    simulator does. *)
Theorem X4_none_only_when_exhausted (arm f : bool) (st : state) :
  (next_task_of arm f st).1 = Ok None ↔
  exhausted (max_tasks (self st)) = true.
Proof.
  split.
  - intros Hr. destruct (exhausted (max_tasks (self st))) eqn:Hex; [done|].
    by destruct (next_task_not_none arm f st Hex).
  - intros Hex. by rewrite (next_task_exhausted arm f st Hex).
Qed.

(** X15. A sampler constructed without a budget never runs out:
    however many tasks are drawn, forced or not, [length] stays
    infinite and no call answers [None]. *)
Theorem X15_unbounded_never_runs_out (arm : bool) (c : config) (g : rng)
    (fs : list bool) :
  cfg_max_tasks c = None →
  Forall (λ r, r.1 ≠ Ok None ∧ length_ (self r.2) = Inf)
         (calls (next_task_of arm) fs (new_sampler c g).2).
Proof.
  intros Hnone.
  destruct (new_sampler_spec c g) as (_ & Hm & _). rewrite Hnone in Hm.
  apply (calls_invariant (λ st, max_tasks (self st) = None)
           (λ r, r.1 ≠ Ok None ∧ length_ (self r.2) = Inf)); [|done].
  intros f st Hst.
  assert (Hex : exhausted (max_tasks (self st)) = false) by (by rewrite Hst).
  assert (Hst' : max_tasks (self (next_task_of arm f st).2) = None)
    by (destruct (next_task_budget_step arm f st) as [Hs|Hs];
        rewrite Hs, Hst; done).
  split_and!; [done|by apply next_task_not_none|].
  unfold length_. by rewrite Hst'.
Qed.

(** [calls_invariant] for runs whose arguments all satisfy [P]. *)
Lemma calls_invariant_on {A B : Type} (P : A → Prop) (I : state → Prop)
    (R : result B * state → Prop) (f : A → M B) xs :
  (∀ x st, P x → I st → I (f x st).2 ∧ R (f x st)) →
  Forall P xs →
  ∀ st, I st →
    I (final st (calls f xs st)) ∧ Forall R (calls f xs st).
Proof.
  intros Hstep HP. induction HP as [|x xs Hx HP IH]; intros st Hst; simpl.
  { split; [done|constructor]. }
  destruct (Hstep x st Hx Hst) as [HI HR]. destruct (IH _ HI) as [HF HA].
  rewrite final_cons. split; [done|]. by constructor.
Qed.

Lemma next_task_args arm f st :
  args (self (next_task_of arm f st).2) = args (self st).
Proof.
  destruct (invoke_cases arm (NextTask f) st) as [Ha _]. exact Ha.
Qed.

(** One [next_task] under the ["manual"] policy. *)
Lemma next_task_manual arm f st :
  scene_period (self st) = PStr "manual" →
  scenes (self st) ≠ [] →
  exhausted (max_tasks (self st)) = false →
  let st' := (next_task_of arm f st).2 in
  let next := (1 + scene_id (self st)) `mod` nscenes st in
  scene_counter (self st') = scene_counter (self st) ∧
  scene_id (self st') = (if f then next else scene_id (self st)) ∧
  scene_order (self st') =
    (if f && (next =? 0) then (shuffle (scene_order (self st)) (random st)).1
     else scene_order (self st)).
Proof.
  intros Hp Hne Hex.
  pose proof (next_task_rotation_of arm f st Hex) as Hrot.
  unfold rotation in Hrot. injection Hrot as _ Hc Ho Hi _ _.
  destruct (sample_scene_manual f st Hp Hne) as (Hc' & Hi' & Ho' & _).
  simpl. rewrite Hc, Hi, Ho. done.
Qed.

(** X5. Under [scene_period = "manual"] the position is driven by the
    caller alone: with an unbounded budget, after any run of
    [next_task] calls the sampler stands on the position it started
    from plus the number of forced calls, modulo [len(scenes)], and
    [scene_counter] is what it was; in particular [len(scenes)] forced
    calls come back to the starting position. *)
Theorem X5_manual_position (arm : bool) (fs : list bool) (st : state) :
  scene_period (self st) = PStr "manual" →
  max_tasks (self st) = None →
  0 ≤ scene_id (self st) < nscenes st →
  let forced := Z.of_nat (length (filter (λ f, f = true) fs)) in
  let st' := final st (calls (next_task_of arm) fs st) in
  scene_id (self st') = (scene_id (self st) + forced) `mod` nscenes st ∧
  scene_counter (self st') = scene_counter (self st) ∧
  scene_id (self (final st (calls (next_task_of arm)
                      (replicate (length (scenes (self st))) true) st)))
    = scene_id (self st).
Proof.
  intros Hp Hm Hi.
  assert (Hgen : ∀ fs st,
    scene_period (self st) = PStr "manual" →
    max_tasks (self st) = None →
    0 ≤ scene_id (self st) < nscenes st →
    scene_id (self (final st (calls (next_task_of arm) fs st))) =
      (scene_id (self st) + Z.of_nat (length (filter (λ f, f = true) fs)))
        `mod` nscenes st ∧
    scene_counter (self (final st (calls (next_task_of arm) fs st))) =
      scene_counter (self st)).
  { clear. intros fs. induction fs as [|f fs IH]; intros st Hp Hm Hi.
    { unfold final. simpl. rewrite Z.add_0_r, Z.mod_small by done. done. }
    assert (Hne : scenes (self st) ≠ [])
      by (unfold nscenes in Hi; destruct (scenes (self st)); simpl in *;
          [lia|done]).
    assert (Hex : exhausted (max_tasks (self st)) = false) by (by rewrite Hm).
    destruct (next_task_manual arm f st Hp Hne Hex) as (Hc' & Hi' & _).
    pose proof (next_task_args arm f st) as Ha.
    assert (Hn : nscenes (next_task_of arm f st).2 = nscenes st)
      by (unfold nscenes, scenes; by rewrite Ha).
    assert (Hm' : max_tasks (self (next_task_of arm f st).2) = None)
      by (destruct (next_task_budget_step arm f st) as [Hs|Hs];
          rewrite Hs, Hm; done).
    simpl. rewrite final_cons. simpl.
    destruct (IH (next_task_of arm f st).2) as [IHi IHc].
    - unfold scene_period. rewrite Ha. exact Hp.
    - exact Hm'.
    - rewrite Hn, Hi'. destruct f; [apply Z.mod_pos_bound; lia|done].
    - rewrite IHi, IHc, Hn, Hi', Hc'. split; [|done].
      rewrite filter_cons. destruct f; simpl.
      + rewrite Zplus_mod_idemp_l. f_equal. lia.
      + done. }
  intros forced st'. destruct (Hgen fs st Hp Hm Hi) as [H1 H2].
  split_and!; [done..|].
  destruct (Hgen (replicate (length (scenes (self st))) true) st Hp Hm Hi)
    as [H3 _].
  rewrite H3.
  assert (Hf : ∀ n : nat, filter (λ f, f = true) (replicate n true)
                          = replicate n true).
  { clear. intros n. induction n as [|n IHn]; simpl; [done|].
    rewrite filter_cons, decide_True by done. by rewrite IHn. }
  rewrite Hf, length_replicate. unfold nscenes in Hi |- *.
  replace (scene_id (self st) + Z.of_nat (length (scenes (self st))))
    with (scene_id (self st) + 1 * Z.of_nat (length (scenes (self st))))
    by lia.
  rewrite Z_mod_plus_full. by apply Z.mod_small.
Qed.

(** X6. Without a forced advance a ["manual"] sampler never moves: over
    any number of unforced [next_task] calls, with or without budget
    left, [scene_id], [scene_order] and [scene_counter] stay what they
    were. *)
Theorem X6_manual_stays_put (arm : bool) (n : nat) (st : state) :
  scene_period (self st) = PStr "manual" →
  scenes (self st) ≠ [] →
  Forall (λ r, scene_id (self r.2) = scene_id (self st) ∧
               scene_order (self r.2) = scene_order (self st) ∧
               scene_counter (self r.2) = scene_counter (self st))
         (calls (next_task_of arm) (replicate n false) st).
Proof.
  intros Hp Hne.
  apply (calls_invariant_on (λ f, f = false)
    (λ st', args (self st') = args (self st) ∧
            scene_id (self st') = scene_id (self st) ∧
            scene_order (self st') = scene_order (self st) ∧
            scene_counter (self st') = scene_counter (self st))
    (λ r, scene_id (self r.2) = scene_id (self st) ∧
          scene_order (self r.2) = scene_order (self st) ∧
          scene_counter (self r.2) = scene_counter (self st))).
  - intros f st' -> (Ha & Hi & Ho & Hc).
    assert (Hst : args (self (next_task_of arm false st').2) = args (self st) ∧
              scene_id (self (next_task_of arm false st').2) = scene_id (self st) ∧
              scene_order (self (next_task_of arm false st').2) = scene_order (self st) ∧
              scene_counter (self (next_task_of arm false st').2) = scene_counter (self st));
      [|by destruct Hst as (? & ? & ? & ?)].
    destruct (exhausted (max_tasks (self st'))) eqn:Hex.
    + by rewrite (next_task_exhausted arm false st' Hex).
    + destruct (next_task_manual arm false st') as (Hc' & Hi' & Ho');
        [unfold scene_period; by rewrite Ha
        |unfold scenes; by rewrite Ha|done|].
      simpl in Hi', Ho'. rewrite next_task_args, Hc', Hi', Ho'. done.
  - by apply Forall_replicate.
  - done.
Qed.

(** X7. An integer period the counter has already passed never rotates
    again: when [scene_counter > scene_period] (as after [reset] under
    a negative period, or after the first task under period 0), no
    number of unforced [next_task] calls changes [scene_id] or
    [scene_order]. *)
Theorem X7_passed_period_never_rotates (arm : bool) (n : nat) (N : Z)
    (st : state) :
  scene_period (self st) = PInt N →
  N < scene_counter (self st) →
  Forall (λ r, scene_id (self r.2) = scene_id (self st) ∧
               scene_order (self r.2) = scene_order (self st))
         (calls (next_task_of arm) (replicate n false) st).
Proof.
  intros Hp Hlt.
  apply (calls_invariant_on (λ f, f = false)
    (λ st', args (self st') = args (self st) ∧
            N < scene_counter (self st') ∧
            scene_id (self st') = scene_id (self st) ∧
            scene_order (self st') = scene_order (self st))
    (λ r, scene_id (self r.2) = scene_id (self st) ∧
          scene_order (self r.2) = scene_order (self st))).
  - intros f st' -> (Ha & Hc & Hi & Ho).
    assert (Hst : args (self (next_task_of arm false st').2) = args (self st) ∧
              N < scene_counter (self (next_task_of arm false st').2) ∧
              scene_id (self (next_task_of arm false st').2) = scene_id (self st) ∧
              scene_order (self (next_task_of arm false st').2) = scene_order (self st));
      [|by destruct Hst as (? & ? & ? & ?)].
    destruct (exhausted (max_tasks (self st'))) eqn:Hex.
    + by rewrite (next_task_exhausted arm false st' Hex).
    + pose proof (next_task_rotation_of arm false st' Hex) as Hrot.
      unfold rotation in Hrot. injection Hrot as _ Hc' Ho' Hi' _ _.
      pose proof (sample_scene_periodic N st') as Hper. unfold wp in Hper.
      destruct Hper as (_ & Hper); [unfold scene_period; by rewrite Ha|].
      destruct (scene_counter (self st') =? N) eqn:E; [lia|].
      destruct Hper as (Hc2 & Hi2 & Ho2).
      rewrite next_task_args, Hc', Hi', Ho', Hc2, Hi2, Ho2.
      split_and!; [done|lia|done|done].
  - by apply Forall_replicate.
  - split_and!; [done|lia|done|done].
Qed.

End MoreRuns.

Section MoreEdges.
Context `{Sim : Simulator}.

(** X8. A forced advance outside the ["manual"] policy is reported and
    not refused: whatever else happens in the call, [sample_scene]
    logs the warning exactly when [force_advance_scene] is set and
    [scene_period != "manual"], and logs nothing else. *)
Theorem X8_forced_advance_warning (f : bool) (st : state) :
  effects st (sample_scene f st).2 =
  if f && negb (bool_decide (scene_period (self st) = PStr "manual"))
  then [Warn ForceAdvanceNotManual] else [].
Proof. apply effects_app, sample_scene_warns. Qed.

Lemma py_index_nil {A : Type} (i : Z) : py_index (@nil A) i = Raise IndexError.
Proof.
  unfold py_index. cbv zeta. change (Z.of_nat (length (@nil A))) with 0.
  destruct (i <? 0) eqn:E1; [by rewrite Z.add_0_r, E1|].
  rewrite E1. apply Z.ltb_ge in E1.
  by rewrite (proj2 (Z.leb_le 0 i) E1).
Qed.

Lemma shuffle_nil (g : rng) : (shuffle [] g).1 = [].
Proof. apply Permutation_nil_r, shuffle_perm. Qed.

(** X9. An empty scene list makes every [sample_scene] raise: the
    forced advance divides by zero; otherwise the random policy asks
    [randint] for an empty range, an unrecognized period is refused,
    and the ["manual"] and integer policies fail on the final lookup,
    after the budget has been charged. *)
Theorem X9_empty_scene_list (f : bool) (st : state) :
  scenes (self st) = [] →
  scene_order (self st) = [] →
  (sample_scene f st).1 =
    Raise (if f then ZeroDivisionError
           else match scene_period (self st) with
                | PNone => ValueError
                | PInt _ => IndexError
                | PStr s =>
                    if bool_decide (s = "manual") then IndexError
                    else NotImplementedError ("Invalid scene_period " +:+ s)
                end) ∧
  (f = false → recognized (scene_period (self st)) →
   scene_period (self st) ≠ PNone →
   max_tasks (self (sample_scene f st).2) =
     (λ m, m - 1) <$> max_tasks (self st)).
Proof.
  intros Hs Ho.
  change (wp (sample_scene f) (λ r st',
    r = Raise (if f then ZeroDivisionError
               else match scene_period (self st) with
                    | PNone => ValueError
                    | PInt _ => IndexError
                    | PStr s =>
                        if bool_decide (s = "manual") then IndexError
                        else NotImplementedError ("Invalid scene_period " +:+ s)
                    end) ∧
    (f = false → recognized (scene_period (self st)) →
     scene_period (self st) ≠ PNone →
     max_tasks (self st') = (λ m, m - 1) <$> max_tasks (self st))) st).
  unfold sample_scene, random_randint, shuffle_scene_order. st_simpl.
  destruct f; [|destruct (cfg_scene_period (args (self st))) as [|s|N] eqn:Ep].
  all: repeat (first [wp_step | wp_case]); st_simpl;
    rewrite ?Hs, ?Ho, ?Ep in *; simpl in *; bool_facts; simplify_eq;
    try done.
  all: rewrite ?shuffle_nil, ?py_index_nil in *; simplify_eq; try done.
  all: try (rewrite bool_decide_eq_true_2 by done; done).
  rewrite bool_decide_eq_false_2 by congruence. done.
Qed.

Lemma prefix_app_inv (old s : string) :
  String.prefix old s = true → ∃ t, s = old +:+ t.
Proof.
  revert s. induction old as [|a old IH]; intros s Hp; [by exists s|].
  destruct s as [|b s]; [done|]. simpl in Hp.
  destruct (Ascii.ascii_dec a b) as [->|]; [|done].
  destruct (IH _ Hp) as [t ->]. by exists t.
Qed.

Lemma prefix_app (old t : string) : String.prefix old (old +:+ t) = true.
Proof.
  induction old as [|a old IH]; simpl; [by destruct t|].
  by destruct (Ascii.ascii_dec a a).
Qed.

Lemma replace_from_skip (old new u t : string) :
  replace_from old new (String.length u) (u +:+ t) = replace_from old new 0 t.
Proof. induction u as [|c u IH]; [done|]. simpl. apply IH. Qed.

Lemma replace_match (old new t : string) :
  old ≠ "" → replace old new (old +:+ t) = new +:+ replace old new t.
Proof.
  intros Hne. destruct old as [|c old]; [done|].
  unfold replace. change (String c old +:+ t) with (String c (old +:+ t)).
  cbn [replace_from].
  change (String c (old +:+ t)) with (String c old +:+ t).
  rewrite prefix_app. cbn [String.length Nat.pred].
  by rewrite replace_from_skip.
Qed.

Lemma prefix_cons (a b : Ascii.ascii) (s1 s2 : string) :
  String.prefix (String a s1) (String b s2) =
  if Ascii.ascii_dec a b then String.prefix s1 s2 else false.
Proof. done. Qed.

Lemma prefix_empty (s : string) : String.prefix "" s = true.
Proof. by destruct s. Qed.

Lemma prefix_of_empty (a : Ascii.ascii) (s : string) :
  String.prefix (String a s) "" = false.
Proof. done. Qed.

Lemma append_cons (c : Ascii.ascii) (s t : string) :
  String c s +:+ t = String c (s +:+ t).
Proof. done. Qed.

Lemma append_empty (t : string) : "" +:+ t = t.
Proof. done. Qed.

Lemma append_assoc (s t u : string) : (s +:+ t) +:+ u = s +:+ t +:+ u.
Proof. induction s as [|c s IH]; [done|]. by rewrite !append_cons, IH. Qed.

Lemma length_append (s t : string) :
  String.length (s +:+ t) = (String.length s + String.length t)%nat.
Proof.
  induction s as [|c s IH]; [done|].
  rewrite append_cons. cbn [String.length]. by rewrite IH.
Qed.

(** No occurrence of ["_physics"] can start inside a name and end
    inside an appended ["_physics"]: the word has a single ["_"]. *)
Lemma physics_no_straddle (c : Ascii.ascii) (s : string) :
  String.prefix "_physics" (String c s +:+ "_physics") = true →
  String.prefix "_physics" (String c s) = true.
Proof.
  do 7 (destruct s as [|? s];
    [repeat first
       [ rewrite append_cons | rewrite append_empty | rewrite prefix_cons
       | rewrite prefix_empty | rewrite prefix_of_empty
       | match goal with
         | |- context [Ascii.ascii_dec ?a ?b] =>
             let e := fresh in
             destruct (Ascii.ascii_dec a b) as [e|];
             [try discriminate e; try subst | try done]
         end ]; done|]).
  rewrite !append_cons, !prefix_cons, !prefix_empty. done.
Qed.

Lemma replace_physics_suffix (s : string) :
  replace "_physics" "" (s +:+ "_physics") = replace "_physics" "" s.
Proof.
  remember (String.length s) as n eqn:Hn. revert s Hn.
  induction n as [n IH] using lt_wf_ind. intros s Hn.
  destruct s as [|c s]; [done|].
  destruct (String.prefix "_physics" (String c s)) eqn:Hp.
  - destruct (prefix_app_inv _ _ Hp) as [t Ht]. rewrite Ht.
    rewrite append_assoc, !replace_match by done.
    f_equal. apply (IH (String.length t)); [|done].
    rewrite Hn, Ht, length_append. simpl. lia.
  - assert (Hq : String.prefix "_physics" (String c s +:+ "_physics") = false).
    { destruct (String.prefix "_physics" (String c s +:+ "_physics")) eqn:Hq;
        [|done].
      apply physics_no_straddle in Hq. congruence. }
    unfold replace in *. rewrite append_cons in *.
    cbn [replace_from]. rewrite Hp, Hq. f_equal.
    apply (IH (String.length s)); [|done]. rewrite Hn. simpl. lia.
Qed.

(** X10. The navigation sampler does not reset an environment that
    already stands on the sampled scene under its physics name: when
    the environment's scene name is the sampled name followed by
    ["_physics"], or the other way round, [next_task] makes no
    [env.reset] call. *)
Theorem X10_physics_variant_not_reset (f : bool) (st st1 : state)
    (e : environment) (scene : string) :
  exhausted (max_tasks (self st)) = false →
  env (self st) = Some e →
  sample_scene f st = (Ok scene, st1) →
  env_scene_name e = scene +:+ "_physics" ∨
    scene = env_scene_name e +:+ "_physics" →
  ∀ s, EnvReset s ∉ effects st (ObjectNavTaskSampler.next_task f st).2.
Proof.
  intros Hex He Hs Hn s Hin.
  apply (nav_next_task_resets f st e scene st1 Hex He Hs) in Hin.
  destruct Hin as [_ Hne]. apply Hne.
  destruct Hn as [-> | ->]; by rewrite replace_physics_suffix.
Qed.

End MoreEdges.

Section MoreNextTask.
Context `{Sim : Simulator}.

(** What a task built by the sampler [arm] names carries, for the
    configuration [c]. *)
Definition configured (arm : bool) (c : config) (t : task) : Prop :=
  task_arm t = arm ∧
  task_sensors t = cfg_sensors c ∧
  task_max_steps t = cfg_max_steps c ∧
  task_action_space t = cfg_action_space c ∧
  is_Some (task_info t !! "start_pose") ∧
  (is_Some (task_info t !! "start_arm_pose") ↔ arm = true).

Lemma select_object_type_keys order present (k : string) :
  k ≠ "object_type" →
  select_object_type order (list_to_set present) (∅ : gmap string info) !! k
    = None.
Proof.
  intros Hk. rewrite select_object_type_first_present.
  destruct (first_present order present); [|done].
  by rewrite lookup_insert_ne.
Qed.

Lemma next_task_configured arm f st :
  wp (next_task_of arm f)
     (λ r _, match r with
             | Ok (Some t) => configured arm (args (self st)) t
             | _ => True
             end) st.
Proof.
  assert (Ha : args (self (sample_scene f st).2) = args (self st))
    by (pose proof (sample_scene_outside f st) as Hout;
        unfold outside_rotation in Hout; congruence).
  destruct arm; cbn [next_task_of].
  - unfold ObjectManipTaskSampler.next_task.
    wp_step. wp_step. wp_step; [done|]. wp_step. unfold wp at 1.
    destruct (sample_scene f st) as [[scene|e] st1]; simpl in *; [|done].
    repeat (first [wp_step | wp_case]); st_simpl; try done.
    all: rewrite Ha; unfold configured; cbn [task_arm task_sensors task_info
           task_max_steps task_action_space]; split_and!; try done.
    all: by rewrite ?lookup_insert_eq, ?lookup_insert_ne,
              ?lookup_insert_eq by done.
  - unfold ObjectNavTaskSampler.next_task.
    wp_step. wp_step. wp_step; [done|]. wp_step. unfold wp at 1.
    destruct (sample_scene f st) as [[scene|e] st1]; simpl in *; [|done].
    repeat (first [wp_step | wp_case]); st_simpl; try done.
    all: rewrite Ha; unfold configured; cbn [task_arm task_sensors task_info
           task_max_steps task_action_space]; split_and!; try done.
    all: rewrite ?lookup_insert_eq, ?lookup_insert_ne,
           ?select_object_type_keys by done; try done.
    all: split; [by intros [? ?]|done].
Qed.

Lemma Forall_returned_tasks (P : task → Prop)
    (tr : list (result (option task) * state)) :
  Forall (λ r, match r.1 with Ok (Some t) => P t | _ => True end) tr →
  Forall P (returned_tasks tr).
Proof.
  unfold returned_tasks. induction 1 as [|[r st] tr Hr _ IH]; simpl; [done|].
  destruct r as [[t|]|]; simpl in *; auto.
Qed.

(** X11. Whatever methods are called on a sampler and in whatever
    order, every task it returns is of the sampler's own kind, carries
    the sensors, step limit and action space the sampler was
    constructed with, and has a [start_pose]; it has a
    [start_arm_pose] exactly when it comes from the manipulation
    sampler. *)
Theorem X11_tasks_carry_configuration (arm : bool) (c : config) (g : rng)
    (ms : list method) :
  Forall (configured arm c)
         (returned_tasks (calls (invoke arm) ms (new_sampler c g).2)).
Proof.
  apply Forall_returned_tasks.
  apply (calls_invariant (λ st, args (self st) = c)).
  - intros m st Hc. split.
    + destruct (invoke_cases arm m st) as [Ha _]. simpl in Ha. congruence.
    + destruct m as [f| |z|]; cbn [invoke].
      * pose proof (next_task_configured arm f st) as Hn. unfold wp in Hn.
        by rewrite Hc in Hn.
      * unfold mbind, M_bind, bind. by destruct (reset st) as [[]?].
      * unfold mbind, M_bind, bind. by destruct (set_seed z st) as [[]?].
      * unfold mbind, M_bind, bind. by destruct (close st) as [[]?].
  - apply new_sampler_spec.
Qed.

End MoreNextTask.

Section MoreProtocol.
Context `{Sim : Simulator} `{!Responsive}.

(** The warning a forced advance costs outside the ["manual"] policy. *)
Definition forced_warning (f : bool) (st : state) : list event :=
  if f && negb (bool_decide (scene_period (self st) = PStr "manual"))
  then [Warn ForceAdvanceNotManual] else [].

(** The simulator calls by which the navigation sampler brings its
    environment to [scene]. *)
Definition nav_setup (scene : string) (st : state) : list event :=
  match env (self st) with
  | None => [EnvNew false; EnvReset scene]
  | Some e =>
      if String.eqb (replace "_physics" "" scene)
                    (replace "_physics" "" (env_scene_name e))
      then [] else [EnvReset scene]
  end.

(** The same for the manipulation sampler. *)
Definition manip_setup (scene : string) (st : state) : list event :=
  match env (self st) with
  | None => [EnvNew true; EnvReset scene]
  | Some _ => [EnvReset scene]
  end.

Lemma nav_next_task_protocol f st :
  recognized (scene_period (self st)) →
  well_formed st →
  exhausted (max_tasks (self st)) = false →
  ∃ scene nw,
    (sample_scene f st).1 = Ok scene ∧
    effects st (ObjectNavTaskSampler.next_task f st).2 =
      forced_warning f st ++ nav_setup scene st ++
      [EnvRandomizeAgentLocation] ++ nw ∧
    (nw = [] ∨ nw = [Warn (NoObjectOfTypes scene (object_types (self st)))]).
Proof.
  intros Hp Hwf Hex.
  change (wp (ObjectNavTaskSampler.next_task f) (λ _ st',
    ∃ scene nw,
      (sample_scene f st).1 = Ok scene ∧
      effects st st' =
        forced_warning f st ++ nav_setup scene st ++
        [EnvRandomizeAgentLocation] ++ nw ∧
      (nw = [] ∨ nw = [Warn (NoObjectOfTypes scene (object_types (self st)))]))
    st).
  unfold ObjectNavTaskSampler.next_task.
  wp_step. wp_step. rewrite Hex. wp_step. unfold wp at 1.
  pose proof (sample_scene_ok f st Hp Hwf) as Hok. unfold wp in Hok.
  pose proof (sample_scene_warns f st) as Hws. fold (forced_warning f st) in Hws.
  pose proof (sample_scene_outside f st) as Hout.
  destruct (sample_scene f st) as [[scene|e] st1]; simpl in *;
    [|by destruct Hok as (_ & _ & ? & ? & _ & _ & ?)].
  clear Hok. injection Hout as Ha He _ _.
  unfold nav_setup. rewrite <- He.
  repeat (wp_step; try responsive).
  all: rewrite Ha in *; bool_facts.
  all: eexists scene, _; split; [reflexivity|].
  all: repeat match goal with
         | E : String.eqb _ _ = _ |- _ => rewrite E; clear E
         end.
  all: split;
    [apply effects_app; st_simpl; rewrite Hws, <- ?app_assoc; reflexivity|].
  all: auto.
Qed.

Lemma manip_next_task_protocol f st :
  recognized (scene_period (self st)) →
  well_formed st →
  exhausted (max_tasks (self st)) = false →
  ∃ scene nw,
    (sample_scene f st).1 = Ok scene ∧
    effects st (ObjectManipTaskSampler.next_task f st).2 =
      forced_warning f st ++ manip_setup scene st ++
      [EnvRandomizeArmPose; EnvControllerStep "DropMidLevelHand";
       EnvRandomizeReachable (object_types (self st));
       EnvGetCurrentArmCoordinate] ++ nw ∧
    (nw = [] ∨ nw = [Warn (NoObjectOfTypes scene (object_types (self st)))]).
Proof.
  intros Hp Hwf Hex.
  change (wp (ObjectManipTaskSampler.next_task f) (λ _ st',
    ∃ scene nw,
      (sample_scene f st).1 = Ok scene ∧
      effects st st' =
        forced_warning f st ++ manip_setup scene st ++
        [EnvRandomizeArmPose; EnvControllerStep "DropMidLevelHand";
         EnvRandomizeReachable (object_types (self st));
         EnvGetCurrentArmCoordinate] ++ nw ∧
      (nw = [] ∨ nw = [Warn (NoObjectOfTypes scene (object_types (self st)))]))
    st).
  unfold ObjectManipTaskSampler.next_task.
  wp_step. wp_step. rewrite Hex. wp_step. unfold wp at 1.
  pose proof (sample_scene_ok f st Hp Hwf) as Hok. unfold wp in Hok.
  pose proof (sample_scene_warns f st) as Hws. fold (forced_warning f st) in Hws.
  pose proof (sample_scene_outside f st) as Hout.
  destruct (sample_scene f st) as [[scene|e] st1]; simpl in *;
    [|by destruct Hok as (_ & _ & ? & ? & _ & _ & ?)].
  clear Hok. injection Hout as Ha He _ _.
  unfold manip_setup. rewrite <- He.
  repeat (wp_step; try responsive).
  all: rewrite Ha in *; bool_facts.
  all: eexists scene, _; split; [reflexivity|].
  all: split;
    [apply effects_app; st_simpl; rewrite Hws, <- ?app_assoc; reflexivity|].
  all: auto.
Qed.

(** X12. The simulator calls of one task, in order, when the simulator
    answers every call.  The navigation sampler builds its environment
    on first use and resets it to the sampled scene, afterwards resets
    it only when the scene name differs, then randomizes the agent's
    location.  The manipulation sampler builds its environment on
    first use, resets it to the sampled scene every time, randomizes
    the arm pose, drops what the hand holds, places the agent where an
    object of the configured types is reachable, and reads the arm
    coordinate.  The only other effects are the forced-advance warning
    before these calls and the missing-object warning after them. *)
Theorem X12_simulator_call_sequence (f : bool) (st : state) :
  recognized (scene_period (self st)) →
  well_formed st →
  exhausted (max_tasks (self st)) = false →
  ∃ scene nw1 nw2,
    (sample_scene f st).1 = Ok scene ∧
    effects st (ObjectNavTaskSampler.next_task f st).2 =
      forced_warning f st ++ nav_setup scene st ++
      [EnvRandomizeAgentLocation] ++ nw1 ∧
    effects st (ObjectManipTaskSampler.next_task f st).2 =
      forced_warning f st ++ manip_setup scene st ++
      [EnvRandomizeArmPose; EnvControllerStep "DropMidLevelHand";
       EnvRandomizeReachable (object_types (self st));
       EnvGetCurrentArmCoordinate] ++ nw2 ∧
    Forall (λ nw, nw = [] ∨
                  nw = [Warn (NoObjectOfTypes scene (object_types (self st)))])
           [nw1; nw2].
Proof.
  intros Hp Hwf Hex.
  destruct (nav_next_task_protocol f st Hp Hwf Hex) as (scene & nw1 & Hs & H1 & Hn1).
  destruct (manip_next_task_protocol f st Hp Hwf Hex)
    as (scene' & nw2 & Hs' & H2 & Hn2).
  assert (scene' = scene) as -> by congruence.
  exists scene, nw1, nw2. split_and!; try done.
  constructor; [done|]. constructor; [done|]. constructor.
Qed.

End MoreProtocol.

Section MoreEnvironment.
Context `{Sim : Simulator}.

(** Not the construction of an environment. *)
Definition no_construction (ev : event) : Prop := ∀ arm, ev ≠ EnvNew arm.

(** The sampler holds an environment, and since [st0] none was built. *)
Definition kept_since (st0 st : state) : Prop :=
  is_Some (env (self st)) ∧
  ∃ evs, log st = log st0 ++ evs ∧ Forall no_construction evs.

Lemma kept_since_refl st : is_Some (env (self st)) → kept_since st st.
Proof. intros He. split; [done|]. exists []. by rewrite app_nil_r. Qed.

Lemma kept_since_trans st0 st1 st2 :
  kept_since st0 st1 → kept_since st1 st2 → kept_since st0 st2.
Proof.
  intros (_ & evs1 & Hl1 & HP1) (He & evs2 & Hl2 & HP2). split; [done|].
  exists (evs1 ++ evs2). rewrite Hl2, Hl1, <- app_assoc. split; [done|].
  by apply Forall_app.
Qed.

Ltac kept_leaf Hws HPws :=
  split; [st_simpl; eauto|];
  eexists; split; [st_simpl; rewrite Hws, <- ?app_assoc; reflexivity|];
  rewrite ?Forall_app, ?Forall_cons, ?Forall_nil; split_and?; try done;
  eapply Forall_impl; [exact HPws|]; by intros ? ->.

Lemma next_task_keeps_environment arm f st :
  is_Some (env (self st)) →
  wp (next_task_of arm f) (λ _ st', kept_since st st') st.
Proof.
  intros [e He].
  destruct (sample_scene_log f st) as (ws & Hws & HPws).
  pose proof (sample_scene_outside f st) as Hout. unfold outside_rotation in Hout.
  injection Hout as _ He1 _ _. rewrite He in He1.
  destruct arm; cbn [next_task_of].
  - unfold ObjectManipTaskSampler.next_task.
    wp_step. wp_step. wp_step; [by apply kept_since_refl|]. wp_step.
    unfold wp at 1.
    destruct (sample_scene f st) as [[scene|x] st1]; simpl in *;
      [|kept_leaf Hws HPws].
    wp_step. wp_step. rewrite He1.
    repeat (first [wp_step | wp_case]); try kept_leaf Hws HPws.
  - unfold ObjectNavTaskSampler.next_task.
    wp_step. wp_step. wp_step; [by apply kept_since_refl|]. wp_step.
    unfold wp at 1.
    destruct (sample_scene f st) as [[scene|x] st1]; simpl in *;
      [|kept_leaf Hws HPws].
    wp_step. wp_step. rewrite He1.
    repeat (first [wp_step | wp_case]); try kept_leaf Hws HPws.
Qed.

Lemma invoke_keeps_environment arm m st :
  is_Some (env (self st)) → kept_since st (invoke arm m st).2.
Proof.
  intros He. destruct m as [f| |z|]; cbn [invoke].
  - apply (next_task_keeps_environment arm f st He).
  - change (wp (reset;; mret None : M (option task))
              (λ _ st', kept_since st st') st).
    repeat wp_step. apply kept_since_refl in He. exact He.
  - change (wp (set_seed z;; mret None : M (option task))
              (λ _ st', kept_since st st') st).
    repeat wp_step; apply kept_since_refl in He; exact He.
  - change (wp (close;; mret None : M (option task))
              (λ _ st', kept_since st st') st).
    destruct He as [e He]. unfold close.
    wp_step. wp_step. wp_step. rewrite He.
    repeat (first [wp_step | wp_case]).
    all: split; [st_simpl; eauto|].
    all: exists [EnvStop]; split; [done|].
    all: by repeat constructor.
Qed.

(** X13. A sampler builds its environment once.  From a state in which
    it holds an environment, whatever methods are called and in
    whatever order, [close] among them, it holds an environment after
    every call and never constructs another: a task sampled after
    [close] runs on the environment that was stopped. *)
Theorem X13_environment_built_once (arm : bool) (ms : list method)
    (st : state) :
  is_Some (env (self st)) →
  Forall (λ r, is_Some (env (self r.2))) (calls (invoke arm) ms st) ∧
  Forall no_construction
         (effects st (final st (calls (invoke arm) ms st))).
Proof.
  intros He.
  destruct (calls_invariant (kept_since st) (λ r, is_Some (env (self r.2)))
              (invoke arm) ms) with (st := st) as [(_ & evs & Hl & HP) HF].
  - intros m st' Hk.
    assert (Hk' : kept_since st (invoke arm m st').2)
      by (eapply kept_since_trans; [exact Hk|];
          apply invoke_keeps_environment, Hk).
    split; [done|]. apply Hk'.
  - by apply kept_since_refl.
  - split; [done|]. by rewrite (effects_app _ _ _ Hl).
Qed.

End MoreEnvironment.

Section MoreGuard.
Import FrozenClassVariables.
Context {value : Type}.

(** X14. No assignment changes a class-level value: when an assignment
    on a class object goes through, the object is the same class, and
    every attribute whose name is neither ["__abstractmethods__"] nor
    starts with ["_abc_"] is as it was, neither overwritten nor
    added. *)
Theorem X14_class_level_values_never_change (name attr : string)
    (d : gmap string value) (v : value) (o : object value) :
  setattr value (ClassObject value name d) attr v = Ok o →
  ∃ d', o = ClassObject value name d' ∧
        d' !! attr = Some v ∧
        ∀ k, k ≠ "__abstractmethods__" → ¬ String.prefix "_abc_" k →
             d' !! k = d !! k.
Proof.
  unfold setattr, __setattr__. cbn [isinstance_type store name_of andb].
  destruct (String.eqb attr "__abstractmethods__") eqn:He;
    destruct (String.prefix "_abc_" attr) eqn:Hpre; cbn [negb andb];
    intros [= <-]; eexists; split_and!; try done.
  all: try by rewrite lookup_insert_eq.
  all: intros k Hk Hpk; apply lookup_insert_ne; intros <-.
  - by apply String.eqb_eq in He.
  - by apply String.eqb_eq in He.
  - apply Hpk. by rewrite Hpre.
Qed.

End MoreGuard.

(** * The further properties on concrete samplers *)

Module Tours.
Import Reference.
Import Scenarios.

(** Three scenes visited by hand, no budget. *)
Definition manual_tour : config :=
  config_of ["Kitchen1"; "Bath2"; "Kitchen3"] ["Mug"]
            (PStr "manual") None (Some 3).

(** A period of zero tasks per scene. *)
Definition stuck : config :=
  config_of ["Kitchen1"; "Bath2"] ["Mug"] (PInt 0) None None.

(** No scene at all. *)
Definition nowhere : config :=
  config_of [] ["Mug"] (PInt 1) (Some 2) None.

Lemma X1_witness :
  let st0 := fresh kitchens 0 in
  well_formed st0 ∧
  Forall (λ r, well_formed r.2)
         (calls (invoke true) [NextTask false; Reset; NextTask true; Close] st0).
Proof.
  refine (X1_rotation_stays_in_range true kitchens 0
            [NextTask false; Reset; NextTask true; Close] _).
  discriminate.
Defined.

Lemma X2_witness :
  Forall (λ r, ∃ k, max_tasks (self r.2) = Some k ∧ 0 ≤ k ≤ 7)
         (calls (invoke false) [NextTask false; NextTask true; Reset]
                (new_sampler kitchens 0).2).
Proof.
  refine (X2_budget_never_negative false kitchens 0 7
            [NextTask false; NextTask true; Reset] _ _).
  - reflexivity.
  - lia.
Defined.

Lemma X3_witness :
  Forall (λ r, 0 ≤ scene_counter (self r.2) ≤ 2)
         (calls (invoke false) [NextTask false; NextTask false; NextTask false]
                (new_sampler kitchens 0).2).
Proof.
  refine (X3_counter_within_period false kitchens 0 2
            [NextTask false; NextTask false; NextTask false] _ _).
  - reflexivity.
  - lia.
Defined.

Lemma X5_witness :
  let st := fresh manual_tour 0 in
  let fs := [true; false; true] in
  let st' := final st (calls (next_task_of false) fs st) in
  scene_id (self st') = (scene_id (self st) + 2) `mod` 3 ∧
  scene_counter (self st') = scene_counter (self st) ∧
  scene_id (self (final st (calls (next_task_of false)
                      (replicate 3 true) st)))
    = scene_id (self st).
Proof.
  refine (X5_manual_position false [true; false; true]
            (fresh manual_tour 0) _ _ _).
  - reflexivity.
  - reflexivity.
  - vm_compute. split; [discriminate|reflexivity].
Defined.

Lemma X6_witness :
  let st := fresh manual_tour 0 in
  Forall (λ r, scene_id (self r.2) = scene_id (self st) ∧
               scene_order (self r.2) = scene_order (self st) ∧
               scene_counter (self r.2) = scene_counter (self st))
         (calls (next_task_of true) (replicate 3 false) st).
Proof.
  refine (X6_manual_stays_put true 3 (fresh manual_tour 0) _ _).
  - reflexivity.
  - discriminate.
Defined.

Lemma X7_witness :
  let st := (next_task_of false false (fresh stuck 0)).2 in
  Forall (λ r, scene_id (self r.2) = scene_id (self st) ∧
               scene_order (self r.2) = scene_order (self st))
         (calls (next_task_of false) (replicate 4 false) st).
Proof.
  refine (X7_passed_period_never_rotates false 4 0
            (next_task_of false false (fresh stuck 0)).2 _ _).
  - reflexivity.
  - vm_compute. reflexivity.
Defined.

Lemma X9_witness :
  let st := fresh nowhere 0 in
  (sample_scene false st).1 = Raise IndexError ∧
  max_tasks (self (sample_scene false st).2) = Some 1.
Proof.
  destruct (X9_empty_scene_list false (fresh nowhere 0)) as [H1 H2].
  - reflexivity.
  - reflexivity.
  - split; [exact H1|]. refine (H2 eq_refl I _). discriminate.
Defined.

Lemma X10_witness :
  let st := (ObjectNavTaskSampler.next_task false (fresh kitchens 0)).2 in
  env (self st) = Some (Scripted ("Kitchen3" +:+ "_physics") [] 5 0) ∧
  (sample_scene false st).1 = Ok "Kitchen3" ∧
  ∀ s, EnvReset s ∉ effects st (ObjectNavTaskSampler.next_task false st).2.
Proof.
  split; [vm_compute; reflexivity|]. split; [vm_compute; reflexivity|].
  refine (X10_physics_variant_not_reset false
            (ObjectNavTaskSampler.next_task false (fresh kitchens 0)).2
            (sample_scene false
               (ObjectNavTaskSampler.next_task false (fresh kitchens 0)).2).2
            (Scripted "Kitchen3_physics" [] 5 0) "Kitchen3" _ _ _ _).
  - vm_compute. reflexivity.
  - vm_compute. reflexivity.
  - apply pair_eta. vm_compute. reflexivity.
  - left. reflexivity.
Defined.

Lemma X12_witness :
  let st := fresh kitchens 0 in
  ∃ scene nw1 nw2,
    (sample_scene true st).1 = Ok scene ∧
    effects st (ObjectNavTaskSampler.next_task true st).2 =
      forced_warning true st ++ nav_setup scene st ++
      [EnvRandomizeAgentLocation] ++ nw1 ∧
    effects st (ObjectManipTaskSampler.next_task true st).2 =
      forced_warning true st ++ manip_setup scene st ++
      [EnvRandomizeArmPose; EnvControllerStep "DropMidLevelHand";
       EnvRandomizeReachable (object_types (self st));
       EnvGetCurrentArmCoordinate] ++ nw2 ∧
    Forall (λ nw, nw = [] ∨
                  nw = [Warn (NoObjectOfTypes scene (object_types (self st)))])
           [nw1; nw2].
Proof.
  refine (X12_simulator_call_sequence true (fresh kitchens 0) _ _ _).
  - vm_compute. exact I.
  - apply new_sampler_spec. discriminate.
  - vm_compute. reflexivity.
Defined.

Lemma X13_witness :
  let st := (ObjectNavTaskSampler.next_task false (fresh kitchens 0)).2 in
  let ms := [Close; NextTask false; Reset; NextTask true] in
  Forall (λ r, is_Some (env (self r.2))) (calls (invoke false) ms st) ∧
  Forall no_construction
         (effects st (final st (calls (invoke false) ms st))).
Proof.
  refine (X13_environment_built_once false
            [Close; NextTask false; Reset; NextTask true]
            (ObjectNavTaskSampler.next_task false (fresh kitchens 0)).2 _).
  exists (Scripted "Kitchen3_physics" [] 5 0). vm_compute. reflexivity.
Defined.

Lemma X14_witness :
  ∃ d', FrozenClassVariables.ClassObject Z "MyConfig" {["_abc_cache" := 3]} =
          FrozenClassVariables.ClassObject Z "MyConfig" d' ∧
        d' !! "_abc_cache" = Some 3 ∧
        ∀ k, k ≠ "__abstractmethods__" → ¬ String.prefix "_abc_" k →
             d' !! k = (∅ : gmap string Z) !! k.
Proof.
  refine (X14_class_level_values_never_change "MyConfig" "_abc_cache" ∅ 3
            (FrozenClassVariables.ClassObject Z "MyConfig" {["_abc_cache" := 3]})
            _).
  reflexivity.
Defined.

Lemma X15_witness :
  Forall (λ r, r.1 ≠ Ok None ∧ length_ (self r.2) = Inf)
         (calls (next_task_of true) [false; true; false]
                (new_sampler unbounded 0).2).
Proof.
  refine (X15_unbounded_never_runs_out true unbounded 0 [false; true; false] _).
  reflexivity.
Defined.

End Tours.
